(** * Distributor product lookup widget: browsing filters, pager and quote queue

    A shallow embedding of the state-handling code of the widget
    (the queue variant of [js/widget.js] and its successor with
    manufacturer groups), followed by the properties of the
    catalog-browsing core.

    Conventions of the embedding.
    - The single global [state] object is an explicit record [State];
      every handler is a computation in the monad [M], which threads the
      state and logs what the handler sends out (remote requests, status
      messages, the final hand-over to the host).
    - An [async] handler awaits exactly one [fetch]; it is split at that
      point into the part that runs up to the request and the part that
      runs when the request settles.
    - A property that may be missing, [undefined] or [null] on a remote
      JSON object is an [option]; [a || b] is [a] when [a] is truthy
      (a non-empty string, a non-zero number, any object).
    - The DOM is represented only by what the handlers read back from it
      (the order of the queue rows and group headers) and by the pager
      controls. *)

From Stdlib Require Import String Ascii List ZArith QArith Bool Lia.
From Stdlib Require Import Permutation Sorted.
From stdpp Require Import gmap strings.
Import ListNotations.

Local Open Scope string_scope.
Local Open Scope list_scope.

(** ** JavaScript values *)

(** Truthiness of a string-valued property. *)
Definition truthy (o : option string) : bool :=
  match o with
  | Some (String _ _) => true
  | _ => false
  end.

(** Truthiness of a number-valued property ([0] is falsy). *)
Definition truthy_num (o : option Q) : bool :=
  match o with
  | Some q => negb (Qnum q =? 0)%Z
  | None => false
  end.

(** [a || b] between two string-valued properties. *)
Definition or_else (a b : option string) : option string :=
  if truthy a then a else b.

(** [a || s] where [s] is a string that is always defined. *)
Definition or_str (a : option string) (s : string) : string :=
  match a with
  | Some (String c r) => String c r
  | _ => s
  end.

(** [a || b] between two number-valued properties. *)
Definition or_num (a b : option Q) : option Q :=
  if truthy_num a then a else b.

(** [a || null] for a number: a falsy number becomes [null]. *)
Definition or_null (a : option Q) : option Q :=
  if truthy_num a then a else None.

(** Truthiness of a string that is always defined. *)
Definition nonempty (s : string) : bool :=
  match s with
  | EmptyString => false
  | String _ _ => true
  end.

(** [a === b] on string-valued properties ([undefined === undefined]). *)
Definition strict_eq (a b : option string) : bool :=
  match a, b with
  | Some x, Some y => String.eqb x y
  | None, None => true
  | _, _ => false
  end.

(** The property key JavaScript derives from a value used as an index. *)
Definition prop_key (o : option string) : string :=
  match o with
  | Some s => s
  | None => "undefined"
  end.

(** ** Remote data *)

Module Pricing.
Record t := mk { retailPrice : option Q }.
End Pricing.

Module PricingData.
Record t := mk {
  pricing : option Pricing.t;
  upc : option string;
  description : option string
}.
(** The empty object [{}]. *)
Definition empty : t := mk None None None.
End PricingData.

Module Product.
Record t := mk {
  ingramPartNumber : option string;
  vendorPartNumber : option string;
  description : option string;
  extraDescription : option string;
  vendorName : option string;
  category : option string;
  subCategory : option string;
  upcCode : option string;
  retailPrice : option Q;
  pricingData : option PricingData.t
}.

(** [{ ...product, pricingData }] *)
Definition with_pricingData (p : t) (pd : option PricingData.t) : t :=
  mk (ingramPartNumber p) (vendorPartNumber p) (description p)
     (extraDescription p) (vendorName p) (category p) (subCategory p)
     (upcCode p) (retailPrice p) pd.
End Product.

(** [p.ingramPartNumber || p.vendorPartNumber], the key every handler
    uses to recognise a product. *)
Definition identity (p : Product.t) : option string :=
  or_else (Product.ingramPartNumber p) (Product.vendorPartNumber p).

(** [pricingData?.pricing?.retailPrice] *)
Definition pricing_retailPrice (pd : option PricingData.t) : option Q :=
  match pd with
  | Some d =>
      match PricingData.pricing d with
      | Some pr => Pricing.retailPrice pr
      | None => None
      end
  | None => None
  end.

Record Pagination := {
  page : Z;
  totalPagesOf : Z;
  totalRecordsOf : Z
}.

(** ** Configuration *)

Record Distributor := {
  name : string;
  apiPrefix : string;
  disabled : bool
}.

Definition DISTRIBUTORS (key : string) : option Distributor :=
  if String.eqb key "ingram" then
    Some {| name := "Ingram Micro"; apiPrefix := "/api"; disabled := false |}
  else if String.eqb key "tdsynnex" then
    Some {| name := "TD SYNNEX"; apiPrefix := "/tdsynnex"; disabled := true |}
  else if String.eqb key "arrow" then
    Some {| name := "Arrow"; apiPrefix := "/arrow"; disabled := true |}
  else None.

(** ** What a handler sends out *)

(** A query-string value before percent-encoding. *)
Inductive qval :=
| QStr (s : string)
| QNum (n : Z).

(** A request to the proxy: the query parameters in the order the
    handler appends them. *)
Definition url := list (string * qval).

Inductive StatusType := error | info | success | loading | blank.

Inductive Message :=
| MsgNoSelection
| MsgAdded (addedCount : nat)
| MsgAlreadyQueued
| MsgNoQueue
| MsgQueuedStandalone (n : nat)
| MsgSelectManufacturerFirst
| MsgLoadingProducts
| MsgNone
| MsgNoProductsFound
| MsgLoadError
| MsgLoadingCategories (mfr : string)
| MsgUseFilters (mfr : string).

(** One entry of the submission payload. *)
Record Formatted := {
  Product_Code : string;
  Product_Name : string;
  Manufacturer : string;
  Ingram_Micro_SKU : string;
  MSRP : option Q;
  Category : string;
  Subcategory : string;
  UPC : string;
  Description : string;
  Last_Sync_Source : string;
  Quantity : Z
}.

Inductive Effect :=
| Fetch (u : url)
| ShowStatus (m : Message) (t : StatusType)
| ClientClose (products : list Formatted) (distributor : string).

(** The Previous/Next controls written into the pagination element,
    [None] when the element is emptied. *)
Record Pager := {
  prevTarget : Z;
  prevDisabled : bool;
  pageLabel : Z * Z;
  nextTarget : Z;
  nextDisabled : bool
}.

(** ** The state object *)

Record State := {
  currentDistributor : string;
  manufacturer : string;
  category : string;
  subcategory : string;
  skuType : string;
  skuKeyword : string;
  loadingFilters : gmap string bool;
  filterParams : gmap string string;
  currentPage : Z;
  totalRecords : Z;
  totalPages : Z;
  selectedProducts : list (string * Product.t);
  queuedProducts : list Product.t;
  groupByManufacturer : bool;
  currentProducts : list Product.t;
  pricingData : gmap string PricingData.t;
  paginationView : option Pager
}.

Definition initial_state : State := {|
  currentDistributor := "ingram";
  manufacturer := "";
  category := "";
  subcategory := "";
  skuType := "";
  skuKeyword := "";
  loadingFilters := <["category" := false]> (<["subcategory" := false]> ∅);
  filterParams := <["category" := ""]> (<["subcategory" := ""]> ∅);
  currentPage := 1;
  totalRecords := 0;
  totalPages := 1;
  selectedProducts := [];
  queuedProducts := [];
  groupByManufacturer := true;
  currentProducts := [];
  pricingData := ∅;
  paginationView := None
|}.

(** Assignments [state.field = v]. *)

Definition set_currentDistributor (v : string) (st : State) : State :=
  Build_State v (manufacturer st) (category st) (subcategory st) (skuType
    st) (skuKeyword st) (loadingFilters st) (filterParams st) (currentPage
    st) (totalRecords st) (totalPages st) (selectedProducts st)
    (queuedProducts st) (groupByManufacturer st) (currentProducts st)
    (pricingData st) (paginationView st).

Definition set_manufacturer (v : string) (st : State) : State :=
  Build_State (currentDistributor st) v (category st) (subcategory st)
    (skuType st) (skuKeyword st) (loadingFilters st) (filterParams st)
    (currentPage st) (totalRecords st) (totalPages st) (selectedProducts st)
    (queuedProducts st) (groupByManufacturer st) (currentProducts st)
    (pricingData st) (paginationView st).

Definition set_category (v : string) (st : State) : State :=
  Build_State (currentDistributor st) (manufacturer st) v (subcategory st)
    (skuType st) (skuKeyword st) (loadingFilters st) (filterParams st)
    (currentPage st) (totalRecords st) (totalPages st) (selectedProducts st)
    (queuedProducts st) (groupByManufacturer st) (currentProducts st)
    (pricingData st) (paginationView st).

Definition set_subcategory (v : string) (st : State) : State :=
  Build_State (currentDistributor st) (manufacturer st) (category st) v
    (skuType st) (skuKeyword st) (loadingFilters st) (filterParams st)
    (currentPage st) (totalRecords st) (totalPages st) (selectedProducts st)
    (queuedProducts st) (groupByManufacturer st) (currentProducts st)
    (pricingData st) (paginationView st).

Definition set_skuType (v : string) (st : State) : State :=
  Build_State (currentDistributor st) (manufacturer st) (category st)
    (subcategory st) v (skuKeyword st) (loadingFilters st) (filterParams st)
    (currentPage st) (totalRecords st) (totalPages st) (selectedProducts st)
    (queuedProducts st) (groupByManufacturer st) (currentProducts st)
    (pricingData st) (paginationView st).

Definition set_skuKeyword (v : string) (st : State) : State :=
  Build_State (currentDistributor st) (manufacturer st) (category st)
    (subcategory st) (skuType st) v (loadingFilters st) (filterParams st)
    (currentPage st) (totalRecords st) (totalPages st) (selectedProducts st)
    (queuedProducts st) (groupByManufacturer st) (currentProducts st)
    (pricingData st) (paginationView st).

Definition set_loadingFilters (v : gmap string bool) (st : State) : State :=
  Build_State (currentDistributor st) (manufacturer st) (category st)
    (subcategory st) (skuType st) (skuKeyword st) v (filterParams st)
    (currentPage st) (totalRecords st) (totalPages st) (selectedProducts st)
    (queuedProducts st) (groupByManufacturer st) (currentProducts st)
    (pricingData st) (paginationView st).

Definition set_filterParams (v : gmap string string) (st : State) : State :=
  Build_State (currentDistributor st) (manufacturer st) (category st)
    (subcategory st) (skuType st) (skuKeyword st) (loadingFilters st) v
    (currentPage st) (totalRecords st) (totalPages st) (selectedProducts st)
    (queuedProducts st) (groupByManufacturer st) (currentProducts st)
    (pricingData st) (paginationView st).

Definition set_currentPage (v : Z) (st : State) : State :=
  Build_State (currentDistributor st) (manufacturer st) (category st)
    (subcategory st) (skuType st) (skuKeyword st) (loadingFilters st)
    (filterParams st) v (totalRecords st) (totalPages st) (selectedProducts
    st) (queuedProducts st) (groupByManufacturer st) (currentProducts st)
    (pricingData st) (paginationView st).

Definition set_totalRecords (v : Z) (st : State) : State :=
  Build_State (currentDistributor st) (manufacturer st) (category st)
    (subcategory st) (skuType st) (skuKeyword st) (loadingFilters st)
    (filterParams st) (currentPage st) v (totalPages st) (selectedProducts
    st) (queuedProducts st) (groupByManufacturer st) (currentProducts st)
    (pricingData st) (paginationView st).

Definition set_totalPages (v : Z) (st : State) : State :=
  Build_State (currentDistributor st) (manufacturer st) (category st)
    (subcategory st) (skuType st) (skuKeyword st) (loadingFilters st)
    (filterParams st) (currentPage st) (totalRecords st) v (selectedProducts
    st) (queuedProducts st) (groupByManufacturer st) (currentProducts st)
    (pricingData st) (paginationView st).

Definition set_selectedProducts (v : list (string * Product.t)) (st : State) : State :=
  Build_State (currentDistributor st) (manufacturer st) (category st)
    (subcategory st) (skuType st) (skuKeyword st) (loadingFilters st)
    (filterParams st) (currentPage st) (totalRecords st) (totalPages st) v
    (queuedProducts st) (groupByManufacturer st) (currentProducts st)
    (pricingData st) (paginationView st).

Definition set_queuedProducts (v : list Product.t) (st : State) : State :=
  Build_State (currentDistributor st) (manufacturer st) (category st)
    (subcategory st) (skuType st) (skuKeyword st) (loadingFilters st)
    (filterParams st) (currentPage st) (totalRecords st) (totalPages st)
    (selectedProducts st) v (groupByManufacturer st) (currentProducts st)
    (pricingData st) (paginationView st).

Definition set_groupByManufacturer (v : bool) (st : State) : State :=
  Build_State (currentDistributor st) (manufacturer st) (category st)
    (subcategory st) (skuType st) (skuKeyword st) (loadingFilters st)
    (filterParams st) (currentPage st) (totalRecords st) (totalPages st)
    (selectedProducts st) (queuedProducts st) v (currentProducts st)
    (pricingData st) (paginationView st).

Definition set_currentProducts (v : list Product.t) (st : State) : State :=
  Build_State (currentDistributor st) (manufacturer st) (category st)
    (subcategory st) (skuType st) (skuKeyword st) (loadingFilters st)
    (filterParams st) (currentPage st) (totalRecords st) (totalPages st)
    (selectedProducts st) (queuedProducts st) (groupByManufacturer st) v
    (pricingData st) (paginationView st).

Definition set_pricingData (v : gmap string PricingData.t) (st : State) : State :=
  Build_State (currentDistributor st) (manufacturer st) (category st)
    (subcategory st) (skuType st) (skuKeyword st) (loadingFilters st)
    (filterParams st) (currentPage st) (totalRecords st) (totalPages st)
    (selectedProducts st) (queuedProducts st) (groupByManufacturer st)
    (currentProducts st) v (paginationView st).

Definition set_paginationView (v : option Pager) (st : State) : State :=
  Build_State (currentDistributor st) (manufacturer st) (category st)
    (subcategory st) (skuType st) (skuKeyword st) (loadingFilters st)
    (filterParams st) (currentPage st) (totalRecords st) (totalPages st)
    (selectedProducts st) (queuedProducts st) (groupByManufacturer st)
    (currentProducts st) (pricingData st) v.

(** ** Handlers as computations *)

(** A handler reads and writes the state and logs what it sends out. *)
Definition M (A : Type) : Type := State -> A * State * list Effect.

Definition ret {A} (a : A) : M A := fun st => (a, st, []).

Definition bind {A B} (c : M A) (k : A -> M B) : M B :=
  fun st =>
    let '(a, st1, out1) := c st in
    let '(b, st2, out2) := k a st1 in
    (b, st2, out1 ++ out2).

Notation "'let*' x ':=' c 'in' k" := (bind c (fun x => k))
  (at level 10, x name, c at level 100, k at level 200).
Notation "c ;;; k" := (bind c (fun _ => k))
  (at level 200, k at level 200, right associativity).

Definition get : M State := fun st => (st, st, []).
Definition modify (f : State -> State) : M unit := fun st => (tt, f st, []).
Definition emit (e : Effect) : M unit := fun st => (tt, st, [e]).
Definition showStatus (m : Message) (t : StatusType) : M unit :=
  emit (ShowStatus m t).

(** The state a handler leaves, what it sent out, and what it returns. *)
Definition exec {A} (c : M A) (st : State) : State := snd (fst (c st)).
Definition sent {A} (c : M A) (st : State) : list Effect := snd (c st).
Definition value {A} (c : M A) (st : State) : A := fst (fst (c st)).

(** The remote requests among the effects of a handler. *)
Definition requests (out : list Effect) : list url :=
  flat_map (fun e => match e with Fetch u => [u] | _ => [] end) out.

Fixpoint forEach {A} (l : list A) (f : A -> M unit) : M unit :=
  match l with
  | [] => ret tt
  | x :: r => f x ;;; forEach r f
  end.

(** ** String built-ins

    Strings are restricted to ASCII here: [trim] removes the ASCII white
    space, [toLowerCase] folds the letters A-Z. *)

Definition is_space (c : ascii) : bool :=
  let n := nat_of_ascii c in
  Nat.eqb n 32 || (Nat.leb 9 n && Nat.leb n 13).

Definition is_digit (c : ascii) : bool :=
  let n := nat_of_ascii c in Nat.leb 48 n && Nat.leb n 57.

Definition is_upper (c : ascii) : bool :=
  let n := nat_of_ascii c in Nat.leb 65 n && Nat.leb n 90.

Definition is_lower (c : ascii) : bool :=
  let n := nat_of_ascii c in Nat.leb 97 n && Nat.leb n 122.

Definition toLowerCase_char (c : ascii) : ascii :=
  if is_upper c then ascii_of_nat (nat_of_ascii c + 32) else c.

Fixpoint toLowerCase (s : string) : string :=
  match s with
  | EmptyString => EmptyString
  | String c r => String (toLowerCase_char c) (toLowerCase r)
  end.

Fixpoint trimStart (s : string) : string :=
  match s with
  | EmptyString => EmptyString
  | String c r => if is_space c then trimStart r else s
  end.

Fixpoint trimEnd (s : string) : string :=
  match s with
  | EmptyString => EmptyString
  | String c r =>
      match trimEnd r with
      | EmptyString => if is_space c then EmptyString else String c EmptyString
      | r' => String c r'
      end
  end.

Definition trim (s : string) : string := trimEnd (trimStart s).

(** ** Collation: [localeCompare] with [numeric: true, sensitivity: 'base']

    The comparison is a platform built-in; this is its behaviour on ASCII
    strings. A string is read as a sequence of collation keys: a maximal
    run of digits is one key that carries the number the run denotes, every
    other character is a key of its own. Keys are ordered by class first
    (punctuation and symbols, then numbers, then letters), numbers by
    value and letters alphabetically without regard to case; strings are
    compared key by key, a proper prefix coming first. *)

Definition ckey : Type := N * N.

Definition digit_value (c : ascii) : N := N.of_nat (nat_of_ascii c - 48).

Definition char_key (c : ascii) : ckey :=
  if is_upper c || is_lower c
  then (2%N, N.of_nat (nat_of_ascii (toLowerCase_char c)))
  else (0%N, N.of_nat (nat_of_ascii c)).

Definition flush (run : option N) : list ckey :=
  match run with
  | Some n => [(1%N, n)]
  | None => []
  end.

Definition extend (run : option N) (c : ascii) : N :=
  match run with
  | Some n => 10 * n + digit_value c
  | None => digit_value c
  end.

(** [run] is the value of the digit run being read, if any. *)
Fixpoint collation_keys (run : option N) (s : string) : list ckey :=
  match s with
  | EmptyString => flush run
  | String c r =>
      if is_digit c then collation_keys (Some (extend run c)) r
      else flush run ++ char_key c :: collation_keys None r
  end.

Definition key_compare (a b : ckey) : comparison :=
  match N.compare (fst a) (fst b) with
  | Eq => N.compare (snd a) (snd b)
  | c => c
  end.

Fixpoint lex_compare (a b : list ckey) : comparison :=
  match a, b with
  | [], [] => Eq
  | [], _ :: _ => Lt
  | _ :: _, [] => Gt
  | x :: a', y :: b' =>
      match key_compare x y with
      | Eq => lex_compare a' b'
      | c => c
      end
  end.

(** The sign of [a.localeCompare(b, undefined, {numeric: true,
    sensitivity: 'base'})]. *)
Definition localeCompare (a b : string) : comparison :=
  lex_compare (collation_keys None a) (collation_keys None b).

(** ** [Array.prototype.sort]

    The language fixes the result for a consistent comparator: the sort
    is stable. Insertion from the right, each element placed before the
    first element it does not follow, computes that result. *)

Section Sort.
Context {A : Type} (cmp : A -> A -> comparison).

Fixpoint sort_insert (x : A) (l : list A) : list A :=
  match l with
  | [] => [x]
  | y :: r =>
      match cmp x y with
      | Gt => y :: sort_insert x r
      | _ => x :: l
      end
  end.

Fixpoint Array_sort (l : list A) : list A :=
  match l with
  | [] => []
  | x :: r => sort_insert x (Array_sort r)
  end.
End Sort.

(** ** The [Map] of selected products

    A [Map] iterates in insertion order; [set] on a key that is present
    replaces the value in place. *)

Fixpoint Map_set (k : string) (v : Product.t) (m : list (string * Product.t))
  : list (string * Product.t) :=
  match m with
  | [] => [(k, v)]
  | (k', v') :: r =>
      if String.eqb k' k then (k, v) :: r else (k', v') :: Map_set k v r
  end.

Definition Map_delete (k : string) (m : list (string * Product.t))
  : list (string * Product.t) :=
  List.filter (fun kv => negb (String.eqb (fst kv) k)) m.

Definition Map_values (m : list (string * Product.t)) : list Product.t :=
  map snd m.

(** ** Utility handlers *)

(** [resetOptionalFilters] *)
Definition resetOptionalFilters : M unit :=
  modify (set_category "") ;;;
  modify (set_subcategory "") ;;;
  modify (set_skuType "") ;;;
  modify (set_skuKeyword "") ;;;
  modify (fun st => set_filterParams (<["category" := ""]> (filterParams st)) st) ;;;
  modify (fun st => set_filterParams (<["subcategory" := ""]> (filterParams st)) st).

(** [resetProducts]: empties the table and the pager, and
    "only clear[s] current page selection, NOT the queue". *)
Definition resetProducts : M unit :=
  modify (set_paginationView None) ;;;
  modify (set_selectedProducts []) ;;;
  modify (set_currentProducts []) ;;;
  modify (set_pricingData ∅).

(** The [input] listener of the keyword box:
    [state.skuKeyword = skuSearch.value.trim()]. *)
Definition onSkuSearchInput (value : string) : M unit :=
  modify (set_skuKeyword (trim value)).

(** ** Filter loading *)

(** The tuple [`${manufacturer}|${category}|${subcategory}|${skuType}`]. *)
Definition currentParams (st : State) : string :=
  manufacturer st +:+ "|" +:+ category st +:+ "|" +:+ subcategory st
    +:+ "|" +:+ skuType st.

(** [if (v) url += `&k=${v}`] *)
Definition opt_param (k v : string) : url :=
  if nonempty v then [(k, QStr v)] else [].

(** A call of [loadFilterOptions] suspended at its [fetch]: the filter
    type and the tuple computed when the call started. *)
Record PendingFilter := {
  pf_filterType : string;
  pf_currentParams : string
}.

Inductive FilterResponse :=
| FilterOk (items : list string)
| FilterFailed.

(** [loadFilterOptions(filterType)] up to its [fetch]. The result is
    [None] when the call returned without a request. *)
Definition loadFilterOptions (filterType : string) : M (option PendingFilter) :=
  let* st := get in
  let currentParams := currentParams st in
  if bool_decide (loadingFilters st !! filterType = Some true) then ret None
  else if bool_decide (filterParams st !! filterType = Some currentParams)
  then ret None
  else
    modify (fun st =>
      set_loadingFilters (<[filterType := true]> (loadingFilters st)) st) ;;;
    let url := [("vendor", QStr (manufacturer st))] in
    if String.eqb filterType "category" then
      emit (Fetch (url ++ [("action", QStr "categories")]
                       ++ opt_param "subCategory" (subcategory st)
                       ++ opt_param "type" (skuType st))) ;;;
      ret (Some {| pf_filterType := filterType;
                   pf_currentParams := currentParams |})
    else if String.eqb filterType "subcategory" then
      emit (Fetch (url ++ [("action", QStr "subcategories")]
                       ++ opt_param "category" (category st)
                       ++ opt_param "type" (skuType st))) ;;;
      ret (Some {| pf_filterType := filterType;
                   pf_currentParams := currentParams |})
    else
      modify (fun st =>
        set_loadingFilters (<[filterType := false]> (loadingFilters st)) st) ;;;
      ret None.

(** [loadFilterOptions] from the moment its [fetch] settles. *)
Definition loadFilterOptions_settle (p : PendingFilter) (r : FilterResponse)
  : M unit :=
  match r with
  | FilterOk _ =>
      modify (fun st =>
        set_filterParams
          (<[pf_filterType p := pf_currentParams p]> (filterParams st)) st)
  | FilterFailed => ret tt
  end ;;;
  modify (fun st =>
    set_loadingFilters (<[pf_filterType p := false]> (loadingFilters st)) st).

(** [await loadFilterOptions(filterType)] with the answer the proxy will
    give, should the call ask for one. *)
Definition loadFilterOptions_await (filterType : string) (r : FilterResponse)
  : M unit :=
  let* p := loadFilterOptions filterType in
  match p with
  | Some p => loadFilterOptions_settle p r
  | None => ret tt
  end.

(** [onManufacturerSelect], the value being that of the manufacturer
    select box. *)
Definition onManufacturerSelect (value : string) (r : FilterResponse)
  : M unit :=
  modify (set_manufacturer value) ;;;
  resetOptionalFilters ;;;
  resetProducts ;;;
  let* st := get in
  if negb (nonempty (manufacturer st)) then ret tt
  else
    showStatus (MsgLoadingCategories (manufacturer st)) loading ;;;
    loadFilterOptions_await "category" r ;;;
    showStatus (MsgUseFilters (manufacturer st)) success.

(** The three filters [onFilterChange] is wired to. *)
Inductive FilterType := f_category | f_subcategory | f_skuType.

(** [state[filterType] = selectEl.value] *)
Definition set_filter (filterType : FilterType) (value : string)
  : State -> State :=
  match filterType with
  | f_category => set_category value
  | f_subcategory => set_subcategory value
  | f_skuType => set_skuType value
  end.

Definition is_category (t : FilterType) : bool :=
  match t with f_category => true | _ => false end.

Definition is_subcategory (t : FilterType) : bool :=
  match t with f_subcategory => true | _ => false end.

(** [onFilterChange(filterType)], the value being that of the select box
    of the filter. *)
Definition onFilterChange (filterType : FilterType) (value : string)
    (r : FilterResponse) : M unit :=
  modify (set_filter filterType value) ;;;
  (if negb (is_category filterType)
   then modify (fun st =>
          set_filterParams (<["category" := ""]> (filterParams st)) st)
   else ret tt) ;;;
  (if negb (is_subcategory filterType)
   then modify (fun st =>
          set_filterParams (<["subcategory" := ""]> (filterParams st)) st)
   else ret tt) ;;;
  resetProducts ;;;
  let* st := get in
  if is_category filterType && nonempty (category st)
  then loadFilterOptions_await "subcategory" r
  else ret tt.

(** ** Products loading *)

Inductive PageResponse :=
| PageOk (products : list Product.t) (pagination : option Pagination)
| PageFailed.

(** The comparator of [displayProductsWithPricing]. *)
Definition compareByPartNumber (a b : Product.t) : comparison :=
  let partA := toLowerCase (or_str (Product.vendorPartNumber a) "") in
  let partB := toLowerCase (or_str (Product.vendorPartNumber b) "") in
  localeCompare partA partB.

(** [renderPagination(pagination)] *)
Definition renderPagination (pagination : option Pagination) : M unit :=
  match pagination with
  | None => modify (set_paginationView None)
  | Some pg =>
      if (totalPagesOf pg <=? 1)%Z then modify (set_paginationView None)
      else modify (set_paginationView (Some {|
             prevTarget := page pg - 1;
             prevDisabled := (page pg =? 1)%Z;
             pageLabel := (page pg, totalPagesOf pg);
             nextTarget := page pg + 1;
             nextDisabled := (totalPagesOf pg <=? page pg)%Z |}))
  end.

(** [displayProductsWithPricing(products, pagination)] *)
Definition displayProductsWithPricing (products : list Product.t)
    (pagination : option Pagination) : M unit :=
  let sortedProducts := Array_sort compareByPartNumber products in
  modify (set_currentProducts sortedProducts) ;;;
  modify (set_pricingData ∅) ;;;
  forEach sortedProducts (fun product =>
    match Product.pricingData product with
    | Some pd =>
        if truthy (Product.ingramPartNumber product)
        then modify (fun st =>
               set_pricingData
                 (<[prop_key (Product.ingramPartNumber product) := pd]>
                    (pricingData st)) st)
        else ret tt
    | None => ret tt
    end) ;;;
  renderPagination pagination.

(** The keyword parameter of a page request. *)
Definition keyword_param (st : State) : url :=
  if nonempty (skuKeyword st) && Nat.leb 2 (String.length (skuKeyword st))
  then [("keyword", QStr (skuKeyword st))]
  else [].

(** [loadProducts(page)] up to its [fetch]; the result tells whether a
    request was made. *)
Definition loadProducts (page : Z) : M bool :=
  let* st := get in
  if negb (nonempty (manufacturer st)) then
    showStatus MsgSelectManufacturerFirst error ;;;
    ret false
  else
    modify (set_currentPage page) ;;;
    showStatus MsgLoadingProducts loading ;;;
    emit (Fetch ([("action", QStr "productsWithPricing");
                  ("vendor", QStr (manufacturer st));
                  ("page", QNum page)]
                   ++ opt_param "category" (category st)
                   ++ opt_param "subCategory" (subcategory st)
                   ++ opt_param "type" (skuType st)
                   ++ keyword_param st)) ;;;
    ret true.

(** [a || b] on numbers that are always defined. *)
Definition or_Z (a b : Z) : Z := if (a =? 0)%Z then b else a.

(** [loadProducts] from the moment its [fetch] settles. *)
Definition loadProducts_settle (r : PageResponse) : M unit :=
  match r with
  | PageOk products pagination =>
      if Nat.ltb 0 (length products) then
        modify (set_totalRecords
          (match pagination with
           | Some pg => or_Z (totalRecordsOf pg) (Z.of_nat (length products))
           | None => Z.of_nat (length products)
           end)) ;;;
        modify (set_totalPages
          (match pagination with
           | Some pg => or_Z (totalPagesOf pg) 1
           | None => 1%Z
           end)) ;;;
        displayProductsWithPricing products pagination ;;;
        showStatus MsgNone blank
      else
        modify (set_paginationView None) ;;;
        showStatus MsgNoProductsFound info
  | PageFailed => showStatus MsgLoadError error
  end.

(** ** Product selection *)

(** [toggleProduct(partNumber, isChecked)], [rows] being the products
    stored on the rows of the table. *)
Definition toggleProduct (rows : list Product.t) (partNumber : string)
    (isChecked : bool) : M unit :=
  forEach rows (fun product =>
    let pn := identity product in
    if strict_eq pn (Some partNumber) then
      if isChecked
      then modify (fun st =>
             set_selectedProducts
               (Map_set partNumber product (selectedProducts st)) st)
      else modify (fun st =>
             set_selectedProducts
               (Map_delete partNumber (selectedProducts st)) st)
    else ret tt).

(** ** Queue management *)

(** [state.queuedProducts.some(p => identity(p) === partNumber)] *)
Definition alreadyQueued (queue : list Product.t) (partNumber : option string)
  : bool :=
  existsb (fun p => strict_eq (identity p) partNumber) queue.

(** [product.pricingData || state.pricingData?.[product.ingramPartNumber]] *)
Definition knownPricing (st : State) (product : Product.t)
  : option PricingData.t :=
  match Product.pricingData product with
  | Some pd => Some pd
  | None => pricingData st !! prop_key (Product.ingramPartNumber product)
  end.

(** One turn of the loop of [addSelectedToQueue]. *)
Definition addOne (product : Product.t) (addedCount : nat) : M nat :=
  let* st := get in
  let partNumber := identity product in
  if negb (alreadyQueued (queuedProducts st) partNumber) then
    let pricingData := knownPricing st product in
    let enrichedProduct := Product.with_pricingData product pricingData in
    modify (set_queuedProducts (queuedProducts st ++ [enrichedProduct])) ;;;
    ret (S addedCount)
  else ret addedCount.

Fixpoint addAll (selectedArray : list Product.t) (addedCount : nat) : M nat :=
  match selectedArray with
  | [] => ret addedCount
  | product :: r =>
      let* n := addOne product addedCount in
      addAll r n
  end.

(** [addSelectedToQueue()] *)
Definition addSelectedToQueue : M unit :=
  let* st := get in
  let selectedArray := Map_values (selectedProducts st) in
  if Nat.eqb (length selectedArray) 0 then
    showStatus MsgNoSelection error
  else
    let* addedCount := addAll selectedArray 0 in
    modify (set_selectedProducts []) ;;;
    let* st := get in
    (if Nat.ltb 0 (length (currentProducts st))
     then displayProductsWithPricing (currentProducts st)
            (Some {| totalRecordsOf := totalRecords st;
                     page := currentPage st;
                     totalPagesOf := totalPages st |})
     else ret tt) ;;;
    if Nat.ltb 0 addedCount
    then showStatus (MsgAdded addedCount) success
    else showStatus MsgAlreadyQueued info.

(** [removeFromQueue(partNumber)] *)
Definition removeFromQueue (partNumber : string) : M unit :=
  modify (fun st =>
    set_queuedProducts
      (List.filter (fun p => negb (strict_eq (identity p) (Some partNumber)))
         (queuedProducts st)) st).

(** The entry [submitQueue] builds for one queued product. *)
Definition formatProduct (st : State) (product : Product.t) : Formatted :=
  let pricingData :=
    match knownPricing st product with
    | Some pd => pd
    | None => PricingData.empty
    end in
  let msrp :=
    or_null (or_num (pricing_retailPrice (Some pricingData))
                    (Product.retailPrice product)) in
  {| Product_Code := or_str (Product.vendorPartNumber product) "";
     Product_Name := or_str (Product.description product) "";
     Manufacturer := or_str (Product.vendorName product) (manufacturer st);
     Ingram_Micro_SKU := or_str (Product.ingramPartNumber product) "";
     MSRP := msrp;
     Category :=
       or_str (Product.category product) (or_str (Some (category st)) "");
     Subcategory :=
       or_str (Product.subCategory product) (or_str (Some (subcategory st)) "");
     UPC :=
       or_str (or_else (PricingData.upc pricingData) (Product.upcCode product)) "";
     Description :=
       or_str (or_else (Product.extraDescription product)
                       (PricingData.description pricingData)) "";
     Last_Sync_Source :=
       or_str (option_map name (DISTRIBUTORS (currentDistributor st)))
              "Ingram Micro";
     Quantity := 1 |}.

(** [submitQueue()]; [client] tells whether the host object [$Client]
    is defined. *)
Definition submitQueue (client : bool) : M unit :=
  let* st := get in
  if Nat.eqb (length (queuedProducts st)) 0 then
    showStatus MsgNoQueue error
  else
    let formattedProducts := map (formatProduct st) (queuedProducts st) in
    if client
    then emit (ClientClose formattedProducts (currentDistributor st))
    else showStatus (MsgQueuedStandalone (length formattedProducts)) info.

(** ** Drag and drop *)

(** The manufacturer a queued product is grouped under:
    [p.vendorName || state.manufacturer || 'Unknown']. *)
Definition groupOf (st : State) (p : Product.t) : string :=
  or_str (Product.vendorName p) (or_str (Some (manufacturer st)) "Unknown").

(** [reorderByGroups()], [mfrOrder] being the manufacturers of the group
    headers in document order. *)
Definition reorderByGroups (mfrOrder : list string) : M unit :=
  let* st := get in
  let newOrder :=
    fold_left (fun newOrder mfr =>
      fold_left (fun newOrder p => newOrder ++ [p])
        (List.filter (fun p => String.eqb (groupOf st p) mfr)
           (queuedProducts st))
        newOrder) mfrOrder [] in
  modify (set_queuedProducts newOrder).

(** The item branch of [handleDrop]: [items] are the part numbers of the
    queue rows in document order. This is the whole of [handleDrop] in
    the variant without groups. *)
Definition reorderByItems (items : list string) : M unit :=
  let* st := get in
  let newOrder :=
    fold_left (fun newOrder partNumber =>
      match find (fun p => strict_eq (identity p) (Some partNumber))
                 (queuedProducts st) with
      | Some product => newOrder ++ [product]
      | None => newOrder
      end) items [] in
  modify (set_queuedProducts newOrder).

(** [handleDrop(e)]; [draggedGroup] tells whether a group header is
    being dragged. *)
Definition handleDrop (draggedGroup : bool) (mfrOrder items : list string)
  : M unit :=
  let* st := get in
  if groupByManufacturer st && draggedGroup
  then reorderByGroups mfrOrder
  else reorderByItems items.

(** ** Reading the payload contract literally

    The submission entry as the interface table words it, written with
    explicit cases instead of [||]; [formatProduct] is compared with it
    below. *)

Module Contract.

(** "x, else empty" *)
Definition else_empty (o : option string) : string :=
  match o with
  | Some s => s
  | None => ""
  end.

(** "x, falling back to y": [y] is used when [x] is missing or empty. *)
Definition falling_back (x : option string) (y : string) : string :=
  match x with
  | Some s => if String.eqb s "" then y else s
  | None => y
  end.

(** A price that is present and not zero. *)
Definition price (o : option Q) : option Q :=
  match o with
  | Some q => if (Qnum q =? 0)%Z then None else Some q
  | None => None
  end.

(** The pricing record of a queue entry: the one it carries, else the
    one cached under its ingram part number. *)
Definition pricing_record (st : State) (p : Product.t)
  : option PricingData.t :=
  match Product.pricingData p with
  | Some pd => Some pd
  | None =>
      match Product.ingramPartNumber p with
      | Some sku => pricingData st !! sku
      | None => pricingData st !! "undefined"
      end
  end.

Definition record_upc (r : option PricingData.t) : option string :=
  match r with Some pd => PricingData.upc pd | None => None end.

Definition record_description (r : option PricingData.t) : option string :=
  match r with Some pd => PricingData.description pd | None => None end.

Definition record_retailPrice (r : option PricingData.t) : option Q :=
  match r with
  | Some pd =>
      match PricingData.pricing pd with
      | Some pr => Pricing.retailPrice pr
      | None => None
      end
  | None => None
  end.

Definition entry (st : State) (distributorName : string) (p : Product.t)
  : Formatted :=
  let r := pricing_record st p in
  {| Product_Code := else_empty (Product.vendorPartNumber p);
     Product_Name := else_empty (Product.description p);
     Manufacturer := falling_back (Product.vendorName p) (manufacturer st);
     Ingram_Micro_SKU := else_empty (Product.ingramPartNumber p);
     MSRP :=
       match price (record_retailPrice r) with
       | Some q => Some q
       | None => price (Product.retailPrice p)
       end;
     Category := falling_back (Product.category p) (category st);
     Subcategory := falling_back (Product.subCategory p) (subcategory st);
     UPC :=
       falling_back (record_upc r) (else_empty (Product.upcCode p));
     Description :=
       falling_back (Product.extraDescription p)
                    (else_empty (record_description r));
     Last_Sync_Source := distributorName;
     Quantity := 1 |}.

End Contract.

(** ** Auxiliary notions used in the statements *)

(** The selection is keyed by identity: keys are distinct and each value
    is stored under its own identity. [toggleProduct] keeps it so. *)
Definition selection_keyed (m : list (string * Product.t)) : Prop :=
  List.NoDup (map fst m) /\
  Forall (fun kv => identity (snd kv) = Some (fst kv)) m.

(** The enriched copy [addSelectedToQueue] pushes. *)
Definition enriched (st : State) (p : Product.t) : Product.t :=
  Product.with_pricingData p (knownPricing st p).

(** The position of a manufacturer in a group order. *)
Fixpoint rank (mfrOrder : list string) (mfr : string) : nat :=
  match mfrOrder with
  | [] => 0
  | m :: r => if String.eqb m mfr then 0 else S (rank r mfr)
  end.

(** The entries of one manufacturer group, in queue order. *)
Definition groupEntries (st : State) (mfr : string) (queue : list Product.t)
  : list Product.t :=
  List.filter (fun p => String.eqb (groupOf st p) mfr) queue.

(** [a] does not come after [b] in the displayed order. *)
Definition part_le (a b : Product.t) : Prop :=
  compareByPartNumber a b <> Gt.

(** A string of digits only. *)
Fixpoint all_digits (s : string) : bool :=
  match s with
  | EmptyString => true
  | String c r => is_digit c && all_digits r
  end.

(** A string without digits. *)
Fixpoint no_digit (s : string) : bool :=
  match s with
  | EmptyString => true
  | String c r => negb (is_digit c) && no_digit r
  end.

(** The number a string of digits denotes. *)
Definition numeric_value (s : string) : N :=
  fold_left (fun n c => (10 * n + digit_value c)%N) (list_ascii_of_string s) 0%N.

(** A keyword parameter is part of a request. *)
Definition has_keyword (u : url) : bool :=
  existsb (fun kv => String.eqb (fst kv) "keyword") u.

(** ** Sample data *)

Definition product (ingram vendorPart vendor : option string)
    (pd : option PricingData.t) : Product.t :=
  Product.mk ingram vendorPart None None vendor None None None None pd.

Definition priced (q : Q) (upc : option string) : PricingData.t :=
  PricingData.mk (Some (Pricing.mk (Some q))) upc None.

(** A state after choosing manufacturer Acme, its categories loaded. *)
Definition acme_state : State :=
  set_filterParams (<["category" := "Acme|||"]> (filterParams initial_state))
    (set_manufacturer "Acme" initial_state).

(** A state after choosing manufacturer Acme, nothing loaded yet. *)
Definition acme_fresh : State := set_manufacturer "Acme" initial_state.

(** One turn of the loop by which [displayProductsWithPricing] fills the
    pricing table. *)
Definition cachePricing (m : gmap string PricingData.t) (p : Product.t)
  : gmap string PricingData.t :=
  match Product.pricingData p with
  | Some pd =>
      if truthy (Product.ingramPartNumber p)
      then <[prop_key (Product.ingramPartNumber p) := pd]> m
      else m
  | None => m
  end.

(** The totals [loadProducts] records for a page that has products. *)
Definition recordedTotals (products : list Product.t)
    (pagination : option Pagination) (st : State) : State :=
  set_totalPages
    (match pagination with
     | Some pg => or_Z (totalPagesOf pg) 1
     | None => 1%Z
     end)
    (set_totalRecords
       (match pagination with
        | Some pg => or_Z (totalRecordsOf pg) (Z.of_nat (length products))
        | None => Z.of_nat (length products)
        end) st).

Definition part_A1 : Product.t := product (Some "SKU-A1") (Some "A1") (Some "Acme") None.
Definition part_A2 : Product.t := product (Some "SKU-A2") (Some "A2") (Some "Acme") None.
Definition part_A10 : Product.t := product (Some "SKU-A10") (Some "A10") (Some "Acme") None.

(** A state in which the pricing of SKU1 is cached. *)
Definition cached_state : State :=
  set_pricingData (<["SKU1" := priced (1999 # 100) None]> ∅) acme_state.

Definition part_B7 : Product.t :=
  product (Some "SKU2") (Some "B7") (Some "Acme")
    (Some (priced (5 # 1) (Some "012345"))).


(** What [trimStart] returns is empty or starts with a character that is
    not white space. *)
Definition starts_clean (s : string) : Prop :=
  match s with
  | EmptyString => True
  | String c _ => is_space c = false
  end.


(** The product of the payload example: part X1 of Acme, priced 19.99,
    with a UPC on its pricing record only. *)
Definition part_X1 : Product.t :=
  product (Some "SKU-X1") (Some "X1") (Some "Acme")
    (Some (priced (1999 # 100) (Some "012345"))).

Definition part_A : Product.t := product (Some "SKU-A") (Some "A") (Some "m1") None.
Definition part_B : Product.t := product (Some "SKU-B") (Some "B") (Some "m2") None.
Definition part_C : Product.t := product (Some "SKU-C") (Some "C") (Some "m1") None.

(** The products the loop of [addSelectedToQueue] pushes. *)
Definition freshOf (queue : list Product.t) (l : list Product.t) : list Product.t :=
  List.filter (fun p => negb (alreadyQueued queue (identity p))) l.


(** The queue entry a row of the queue list stands for, if any:
    [state.queuedProducts.find(p => identity(p) === partNumber)]. *)
Definition rowEntry (queue : list Product.t) (partNumber : string)
  : list Product.t :=
  match find (fun p => strict_eq (identity p) (Some partNumber)) queue with
  | Some product => [product]
  | None => []
  end.

(** The keys of the selection. *)
Definition Map_keys (m : list (string * Product.t)) : list string := map fst m.

(** The queue holds each identity once. *)
Definition queue_unique (queue : list Product.t) : Prop :=
  List.NoDup (map identity queue).

(** The table drawn again by [addSelectedToQueue] from the list on
    display and the page and totals on record. *)
Definition redrawn (st : State) : State :=
  if Nat.ltb 0 (length (currentProducts st))
  then exec (displayProductsWithPricing (currentProducts st)
               (Some {| page := currentPage st; totalPagesOf := totalPages st;
                        totalRecordsOf := totalRecords st |})) st
  else st.


(** Two products whose part numbers collate alike. *)
Definition same_part (a x : Product.t) : bool :=
  match compareByPartNumber x a with
  | Eq => true
  | _ => false
  end.

(** ** The queue list on screen *)

(** An element of the queue list: the header of a manufacturer group or
    the row of a product, with the data attribute handlers read back. *)
Inductive QueueRow :=
| GroupHeader (mfr : string)
| QueueItem (partNumber : string).

(** [createQueueItemElement(product, index)]: the row carries the
    identity of the product, turned into a string. *)
Definition createQueueItemElement (product : Product.t) : QueueRow :=
  QueueItem (prop_key (identity product)).

(** [if (!groups[mfr]) groups[mfr] = []; groups[mfr].push(product)] on
    the [groups] object, its keys in the order they were created. Names
    that an empty object inherits are not manufacturer names. *)
Fixpoint pushToGroup (mfr : string) (product : Product.t)
    (groups : list (string * list Product.t)) : list (string * list Product.t) :=
  match groups with
  | [] => [(mfr, [product])]
  | (k, l) :: r =>
      if String.eqb k mfr then (k, l ++ [product]) :: r
      else (k, l) :: pushToGroup mfr product r
  end.

(** [groups[mfr]] for a key of [groups]. *)
Definition groupAt (groups : list (string * list Product.t)) (mfr : string)
  : list Product.t :=
  match find (fun kv => String.eqb (fst kv) mfr) groups with
  | Some kv => snd kv
  | None => []
  end.

(** [renderQueueItems()]: what the queue list holds afterwards. The
    default [sort()] compares code units, [String.compare] on the
    strings here; the keys being distinct, the order [Object.keys]
    lists them in does not show in the result. *)
Definition renderQueueItems (st : State) : list QueueRow :=
  if groupByManufacturer st then
    let groups :=
      fold_left (fun groups product =>
                   pushToGroup (groupOf st product) product groups)
        (queuedProducts st) [] in
    flat_map (fun mfr =>
                GroupHeader mfr :: map createQueueItemElement (groupAt groups mfr))
      (Array_sort String.compare (map fst groups))
  else map createQueueItemElement (queuedProducts st).

(** [document.querySelectorAll('.queue-mfr-group')] read as
    [dataset.manufacturer]. *)
Definition headersOf (rows : list QueueRow) : list string :=
  flat_map (fun r => match r with GroupHeader m => [m] | QueueItem _ => [] end) rows.

(** [document.querySelectorAll('.queue-item')] read as
    [dataset.partNumber]. *)
Definition itemsOf (rows : list QueueRow) : list string :=
  flat_map (fun r => match r with GroupHeader _ => [] | QueueItem k => [k] end) rows.

(** [toggleGroupByManufacturer()]: [checkbox ? checkbox.checked : false],
    [checkbox] being [None] when the page has no such element. *)
Definition toggleGroupByManufacturer (checkbox : option bool) : M unit :=
  modify (set_groupByManufacturer
            (match checkbox with Some checked => checked | None => false end)).

(** The groups after the products seen so far. *)
Definition groups_of (g : Product.t -> string) (seen : list Product.t)
    (groups : list (string * list Product.t)) : Prop :=
  List.NoDup (map fst groups) /\
  (forall k l, In (k, l) groups ->
               l = List.filter (fun p => String.eqb (g p) k) seen) /\
  (forall p, In p seen -> In (g p) (map fst groups)) /\
  (forall k, In k (map fst groups) -> exists p, In p seen /\ g p = k).

(** ** Switching distributors *)

(** The status lines of the handlers below. *)
Inductive Notice :=
| ComingSoon (name : string)
| SwitchedTo (name : string)
| SelectManufacturerToBegin
| QueueCleared.

(** How a handler ends: by returning, or by a [TypeError] on reading a
    property of [undefined]. *)
Inductive Completion := Returned | Threw.

(** [resetFilters()] *)
Definition resetFilters (st : State) : State * list (Notice * StatusType) :=
  let st := set_manufacturer "" st in
  let st := set_currentPage 1 st in
  let st := set_totalRecords 0 st in
  let st := set_totalPages 1 st in
  let st := exec resetOptionalFilters st in
  let st := exec resetProducts st in
  (st, [(SelectManufacturerToBegin, info)]).

(** [selectDistributor(distributor)], the argument being the key a tab
    passes. For a key that is not configured the optional chaining lets
    the guard pass, and the last line throws after the state was
    written. *)
Definition selectDistributor (distributor : string) (st : State)
  : State * list (Notice * StatusType) * Completion :=
  match DISTRIBUTORS distributor with
  | Some d =>
      if disabled d then (st, [(ComingSoon (name d), info)], Returned)
      else
        let st := set_currentDistributor distributor st in
        let '(st, out) := resetFilters st in
        (st, out ++ [(SwitchedTo (name d), info)], Returned)
  | None =>
      let st := set_currentDistributor distributor st in
      let '(st, out) := resetFilters st in
      (st, out, Threw)
  end.

(** [clearQueue()] *)
Definition clearQueue (st : State) : State * list (Notice * StatusType) :=
  (set_queuedProducts [] st, [(QueueCleared, info)]).

(** The active distributor is not one that is marked disabled. *)
Definition active_enabled (st : State) : Prop :=
  forall d, DISTRIBUTORS (currentDistributor st) = Some d -> disabled d = false.

(** ** Product details *)

(** [formatSKUType(type)] *)
Definition formatSKUType (type : option string) : string :=
  match type with
  | Some t =>
      if String.eqb t "IM::physical" || String.eqb t "IM::Physical"
         || String.eqb t "Physical" then "Physical"
      else if String.eqb t "IM::digital" || String.eqb t "IM::Digital"
              || String.eqb t "Digital" then "Digital"
      else if String.eqb t "IM::subscription" || String.eqb t "IM::Subscription"
              || String.eqb t "Subscription" then "Subscription"
      else or_str type "-"
  | None => or_str type "-"
  end.

(** * Properties *)

(** ** Running handlers *)

(** Reduction of state projections, leaving the tables alone. *)
Ltac fields :=
  cbn [currentDistributor manufacturer category subcategory skuType skuKeyword
       loadingFilters filterParams currentPage totalRecords totalPages
       selectedProducts queuedProducts groupByManufacturer currentProducts
       pricingData paginationView
       set_currentDistributor set_manufacturer set_category set_subcategory
       set_skuType set_skuKeyword set_loadingFilters set_filterParams
       set_currentPage set_totalRecords set_totalPages set_selectedProducts
       set_queuedProducts set_groupByManufacturer set_currentProducts
       set_pricingData set_paginationView].

(** Evaluation of the monad and of the handlers without loops. *)
Ltac mrun :=
  cbv beta iota zeta delta
    [exec value sent bind ret get modify emit showStatus fst snd app
     negb andb orb is_category is_subcategory set_filter
     resetProducts resetOptionalFilters onSkuSearchInput renderPagination
     requests flat_map length];
  fields.

(** Lookups in tables written at literal keys. *)
Ltac map_lookups :=
  unfold currentParams; fields;
  repeat first
    [ rewrite lookup_insert_eq
    | rewrite lookup_insert_ne by discriminate ];
  try match goal with
      | |- ?a = ?a => exact eq_refl
      | |- ?a = ?a \/ _ => left; exact eq_refl
      | |- _ \/ ?a = ?a => right; exact eq_refl
      end.

Lemma requests_app (a b : list Effect) :
  requests (a ++ b) = requests a ++ requests b.
Proof. unfold requests. apply flat_map_app. Qed.

(** ** Filter loading *)

(** A call of [loadFilterOptions] that finds a load in flight, or the
    cached tuple up to date, returns at once. *)
Lemma loadFilterOptions_guarded (filterType : string) (st : State) :
  loadingFilters st !! filterType = Some true \/
  filterParams st !! filterType = Some (currentParams st) ->
  loadFilterOptions filterType st = (None, st, []).
Proof.
  intros H. unfold loadFilterOptions, bind, get.
  destruct (bool_decide (loadingFilters st !! filterType = Some true)) eqn:E1;
    [reflexivity|].
  destruct (bool_decide (filterParams st !! filterType = Some (currentParams st)))
    eqn:E2; [reflexivity|].
  apply bool_decide_eq_false in E1, E2. tauto.
Qed.

(** Otherwise a call for one of the two filters sends one request and
    marks the load as in flight. *)
Lemma loadFilterOptions_fires (filterType : string) (st : State) :
  loadingFilters st !! filterType <> Some true ->
  filterParams st !! filterType <> Some (currentParams st) ->
  filterType = "category" \/ filterType = "subcategory" ->
  exists u,
    loadFilterOptions filterType st =
      (Some {| pf_filterType := filterType;
               pf_currentParams := currentParams st |},
       set_loadingFilters (<[filterType := true]> (loadingFilters st)) st,
       [Fetch u]).
Proof.
  intros H1 H2 Hft. unfold loadFilterOptions, bind, get.
  rewrite (bool_decide_eq_false_2 _ H1), (bool_decide_eq_false_2 _ H2).
  destruct Hft as [-> | ->]; eexists; reflexivity.
Qed.

(** An awaited [loadFilterOptions] touches the two filter tables only,
    and the cached tuples only by storing the current tuple of its
    filter. *)
Lemma loadFilterOptions_await_frame (filterType : string) r (st : State) :
  exists lf fp out,
    loadFilterOptions_await filterType r st
      = (tt, set_loadingFilters lf (set_filterParams fp st), out) /\
    (fp = filterParams st \/
     fp = <[filterType := currentParams st]> (filterParams st)).
Proof.
  destruct st as [cd m c sc ty kw lf0 fp0 cp tr tp sel q g cur pd pv].
  unfold loadFilterOptions_await, loadFilterOptions, bind, get.
  cbn [loadingFilters filterParams].
  destruct (bool_decide (lf0 !! filterType = Some true)).
  { exists lf0, fp0, []. split; [reflexivity | now left]. }
  destruct (bool_decide (fp0 !! filterType = Some _)).
  { exists lf0, fp0, []. split; [reflexivity | now left]. }
  destruct (String.eqb filterType "category").
  { destruct r; eexists _, _, _; (split; [reflexivity | auto]). }
  destruct (String.eqb filterType "subcategory").
  { destruct r; eexists _, _, _; (split; [reflexivity | auto]). }
  eexists _, _, _; split; [reflexivity | now left].
Qed.

Ltac await_cases :=
  match goal with
  | |- context [loadFilterOptions_await ?f ?r0 ?s] =>
      let E := fresh "E" in
      destruct (loadFilterOptions_await_frame f r0 s)
        as (? & ? & ? & E & [-> | ->]); rewrite E; clear E
  end.

(** ** Cascading invalidation *)

(** C5 (as amended). A manufacturer change clears the category,
    subcategory, type and keyword filters, both cached tuples, the product
    list and the selection; a category change keeps the manufacturer and
    the other filters, drops the cached subcategory tuple and the product
    state; a subcategory change drops the cached category tuple and the
    product state; a type change drops both cached tuples and the product
    state; a keyword change stores the trimmed keyword and nothing else.
    A cached tuple that was dropped is blank or, when the handler went on
    to reload that filter, the tuple of the new state. The queue is kept
    throughout. *)
Theorem cascading_invalidation (st : State) (v : string) (r : FilterResponse) :
  (let st' := exec (onManufacturerSelect v r) st in
   manufacturer st' = v /\ category st' = "" /\ subcategory st' = "" /\
   skuType st' = "" /\ skuKeyword st' = "" /\
   filterParams st' !! "subcategory" = Some "" /\
   (filterParams st' !! "category" = Some "" \/
    filterParams st' !! "category" = Some (currentParams st')) /\
   currentProducts st' = [] /\ selectedProducts st' = [] /\
   queuedProducts st' = queuedProducts st) /\
  (let st' := exec (onFilterChange f_category v r) st in
   manufacturer st' = manufacturer st /\ category st' = v /\
   subcategory st' = subcategory st /\ skuType st' = skuType st /\
   skuKeyword st' = skuKeyword st /\
   filterParams st' !! "category" = filterParams st !! "category" /\
   (filterParams st' !! "subcategory" = Some "" \/
    filterParams st' !! "subcategory" = Some (currentParams st')) /\
   currentProducts st' = [] /\ selectedProducts st' = [] /\
   queuedProducts st' = queuedProducts st) /\
  (let st' := exec (onFilterChange f_subcategory v r) st in
   manufacturer st' = manufacturer st /\ category st' = category st /\
   subcategory st' = v /\ skuType st' = skuType st /\
   skuKeyword st' = skuKeyword st /\
   filterParams st' !! "category" = Some "" /\
   filterParams st' !! "subcategory" = filterParams st !! "subcategory" /\
   currentProducts st' = [] /\ selectedProducts st' = [] /\
   queuedProducts st' = queuedProducts st) /\
  (let st' := exec (onFilterChange f_skuType v r) st in
   manufacturer st' = manufacturer st /\ category st' = category st /\
   subcategory st' = subcategory st /\ skuType st' = v /\
   skuKeyword st' = skuKeyword st /\
   filterParams st' !! "category" = Some "" /\
   filterParams st' !! "subcategory" = Some "" /\
   currentProducts st' = [] /\ selectedProducts st' = [] /\
   queuedProducts st' = queuedProducts st) /\
  exec (onSkuSearchInput v) st = set_skuKeyword (trim v) st.
Proof.
  split; [|split; [|split; [|split]]].
  - unfold onManufacturerSelect. mrun. destruct (nonempty v); mrun.
    + await_cases; mrun; repeat apply conj; map_lookups.
    + repeat apply conj; map_lookups.
  - unfold onFilterChange. mrun. destruct (nonempty v); mrun.
    + await_cases; mrun; repeat apply conj; map_lookups.
    + repeat apply conj; map_lookups.
  - unfold onFilterChange. mrun. repeat apply conj; map_lookups.
  - unfold onFilterChange. mrun. repeat apply conj; map_lookups.
  - reflexivity.
Qed.

(** C5, the claim as stated fails: with the categories of Acme loaded, a
    change of subcategory drops the cached category tuple, and a change of
    keyword leaves the displayed products in place. *)
Lemma subcategory_change_drops_category_cache :
  filterParams acme_state !! "category" = Some "Acme|||" /\
  filterParams (exec (onFilterChange f_subcategory "Laptops" FilterFailed)
                  acme_state) !! "category" = Some "" /\
  currentProducts
    (exec (onSkuSearchInput "ab")
       (set_currentProducts [product (Some "SKU1") (Some "A1") None None]
          acme_state)) <> [].
Proof.
  split; [|split].
  - unfold acme_state. fields. map_lookups.
  - unfold onFilterChange. mrun. map_lookups.
  - mrun. discriminate.
Qed.

(** ** Idempotence of filter loading *)

(** After a successful load the cached tuple is the current one and no
    load is in flight. *)
Lemma loadFilterOptions_settle_ok (ft : string) (items : list string) (st : State) :
  loadFilterOptions_settle
    {| pf_filterType := ft; pf_currentParams := currentParams st |}
    (FilterOk items)
    (set_loadingFilters (<[ft := true]> (loadingFilters st)) st)
  = (tt,
     set_loadingFilters (<[ft := false]> (<[ft := true]> (loadingFilters st)))
       (set_filterParams (<[ft := currentParams st]> (filterParams st)) st),
     []).
Proof. destruct st; reflexivity. Qed.

Lemma loadFilterOptions_settle_failed (ft : string) (st : State) :
  loadFilterOptions_settle
    {| pf_filterType := ft; pf_currentParams := currentParams st |}
    FilterFailed
    (set_loadingFilters (<[ft := true]> (loadingFilters st)) st)
  = (tt,
     set_loadingFilters (<[ft := false]> (<[ft := true]> (loadingFilters st))) st,
     []).
Proof. destruct st; reflexivity. Qed.

Lemma loadFilterOptions_settle_silent p r (st : State) :
  sent (loadFilterOptions_settle p r) st = [].
Proof. destruct r; reflexivity. Qed.

(** C6 (as amended). With no load in flight and the cached tuple equal
    to the current one, [loadFilterOptions] changes nothing and sends
    nothing; so does a call made while a load for the same filter is in
    flight. When a first call for the category or the subcategory filter
    finds no load in flight and a stale tuple, two calls made back to
    back send exactly one request, and so do two awaited calls when the
    first request succeeds; when the first request fails, the tuple is
    not stored and the second awaited call sends the request again. *)
Theorem filter_load_idempotence (st : State) (filterType : string) :
  (loadingFilters st !! filterType <> Some true ->
   filterParams st !! filterType = Some (currentParams st) ->
   loadFilterOptions filterType st = (None, st, [])) /\
  (loadingFilters st !! filterType = Some true ->
   loadFilterOptions filterType st = (None, st, [])) /\
  (filterType = "category" \/ filterType = "subcategory" ->
   loadingFilters st !! filterType <> Some true ->
   filterParams st !! filterType <> Some (currentParams st) ->
   length (requests (sent (loadFilterOptions filterType ;;;
                           loadFilterOptions filterType) st)) = 1 /\
   (forall items r2,
      length (requests (sent (loadFilterOptions_await filterType (FilterOk items) ;;;
                              loadFilterOptions_await filterType r2) st)) = 1) /\
   (forall r2,
      length (requests (sent (loadFilterOptions_await filterType FilterFailed ;;;
                              loadFilterOptions_await filterType r2) st)) = 2)).
Proof.
  split; [|split].
  - intros _ H. apply loadFilterOptions_guarded. now right.
  - intros H. apply loadFilterOptions_guarded. now left.
  - intros Hft H1 H2.
    destruct (loadFilterOptions_fires filterType st H1 H2 Hft) as [u Hu].
    split; [|split].
    + unfold sent, bind. rewrite Hu.
      rewrite loadFilterOptions_guarded
        by (left; fields; apply lookup_insert_eq).
      reflexivity.
    + intros items r2. unfold sent, bind, loadFilterOptions_await at 1.
      unfold bind. rewrite Hu, loadFilterOptions_settle_ok.
      unfold loadFilterOptions_await, bind.
      rewrite loadFilterOptions_guarded
        by (right; unfold currentParams; fields; apply lookup_insert_eq).
      reflexivity.
    + intros r2. unfold sent, bind, loadFilterOptions_await at 1.
      unfold bind. rewrite Hu, loadFilterOptions_settle_failed.
      unfold loadFilterOptions_await, bind.
      edestruct (loadFilterOptions_fires filterType) as [u' Hu'];
        [| | exact Hft | rewrite Hu'].
      * fields. rewrite lookup_insert_eq. discriminate.
      * unfold currentParams. fields. exact H2.
      * match goal with
        | |- context [loadFilterOptions_settle ?p r2 ?s] =>
            pose proof (loadFilterOptions_settle_silent p r2 s) as Hs;
            unfold sent in Hs;
            destruct (loadFilterOptions_settle p r2 s) as [[? ?] ?]
        end.
        cbn [snd] in Hs. subst. reflexivity.
Qed.

(** C6, the claim as stated fails: when the first request fails, two
    awaited calls in succession send two requests. *)
Lemma failed_load_is_retried :
  requests (sent (loadFilterOptions_await "category" FilterFailed ;;;
                  loadFilterOptions_await "category" FilterFailed) acme_fresh)
  = [ [("vendor", QStr "Acme"); ("action", QStr "categories")];
      [("vendor", QStr "Acme"); ("action", QStr "categories")] ].
Proof. vm_compute. reflexivity. Qed.

Lemma filter_load_idempotence_witness :
  length (requests (sent (loadFilterOptions "category" ;;;
                          loadFilterOptions "category") acme_fresh)) = 1 /\
  (forall items r2,
     length (requests (sent (loadFilterOptions_await "category" (FilterOk items) ;;;
                             loadFilterOptions_await "category" r2) acme_fresh)) = 1) /\
  (forall r2,
     length (requests (sent (loadFilterOptions_await "category" FilterFailed ;;;
                             loadFilterOptions_await "category" r2) acme_fresh)) = 2).
Proof.
  apply (proj2 (proj2 (filter_load_idempotence acme_fresh "category"))).
  - left; reflexivity.
  - vm_compute. discriminate.
  - vm_compute. discriminate.
Defined.

(** ** Sorting *)

Section SortFacts.
Context {A : Type} (cmp : A -> A -> comparison).

Lemma sort_insert_perm (x : A) (l : list A) :
  Permutation (sort_insert cmp x l) (x :: l).
Proof.
  induction l as [|y r IH]; cbn [sort_insert]; [reflexivity|].
  destruct (cmp x y); try reflexivity.
  rewrite IH. apply perm_swap.
Qed.

Lemma Array_sort_perm (l : list A) : Permutation (Array_sort cmp l) l.
Proof.
  induction l as [|x r IH]; cbn [Array_sort]; [reflexivity|].
  rewrite sort_insert_perm. now constructor.
Qed.

Lemma Array_sort_length (l : list A) :
  length (Array_sort cmp l) = length l.
Proof. apply Permutation_length, Array_sort_perm. Qed.

Lemma Array_sort_In (l : list A) (x : A) :
  In x (Array_sort cmp l) <-> In x l.
Proof.
  split; apply Permutation_in;
    [apply Array_sort_perm | symmetry; apply Array_sort_perm].
Qed.

(** The order a comparator induces. *)
Definition cmp_le (a b : A) : Prop := cmp a b <> Gt.

Hypothesis cmp_total : forall a b, cmp a b = Gt -> cmp b a <> Gt.
Hypothesis cmp_trans : forall a b c, cmp_le a b -> cmp_le b c -> cmp_le a c.

Lemma sort_insert_sorted (x : A) (l : list A) :
  StronglySorted cmp_le l -> StronglySorted cmp_le (sort_insert cmp x l).
Proof using cmp_total cmp_trans.
  induction 1 as [|y r Hr IH Hy]; cbn [sort_insert].
  - repeat constructor.
  - destruct (cmp x y) eqn:E.
    + constructor; [now constructor|].
      assert (cmp_le x y) by (unfold cmp_le; congruence).
      constructor; [assumption|].
      eapply List.Forall_impl; [|exact Hy]. intros z Hz. now apply cmp_trans with y.
    + constructor; [now constructor|].
      assert (cmp_le x y) by (unfold cmp_le; congruence).
      constructor; [assumption|].
      eapply List.Forall_impl; [|exact Hy]. intros z Hz. now apply cmp_trans with y.
    + constructor; [assumption|].
      rewrite List.Forall_forall. intros z Hz.
      apply (Permutation_in _ (sort_insert_perm x r)) in Hz.
      destruct Hz as [<- | Hz].
      * now apply cmp_total.
      * rewrite List.Forall_forall in Hy. now apply Hy.
Qed.

Lemma Array_sort_sorted (l : list A) : StronglySorted cmp_le (Array_sort cmp l).
Proof using cmp_total cmp_trans.
  induction l as [|x r IH]; cbn [Array_sort]; [constructor|].
  now apply sort_insert_sorted.
Qed.

(** Sorting a sorted list changes nothing. *)
Lemma Array_sort_sorted_id (l : list A) :
  StronglySorted cmp_le l -> Array_sort cmp l = l.
Proof.
  induction 1 as [|x r Hr IH Hx]; cbn [Array_sort]; [reflexivity|].
  rewrite IH. destruct r as [|y r']; [reflexivity|].
  cbn [sort_insert]. inversion Hx as [|? ? Hxy _]; subst.
  unfold cmp_le in Hxy. destruct (cmp x y); congruence.
Qed.
End SortFacts.

(** ** Collation *)

Lemma key_compare_refl (a : ckey) : key_compare a a = Eq.
Proof. unfold key_compare. now rewrite !N.compare_refl. Qed.

Lemma key_compare_eq (a b : ckey) : key_compare a b = Eq -> a = b.
Proof.
  destruct a as [a1 a2], b as [b1 b2]. unfold key_compare. cbn [fst snd].
  destruct (N.compare_spec a1 b1) as [E| |]; try discriminate.
  intros E2%N.compare_eq_iff. congruence.
Qed.

Lemma key_compare_lt (a b : ckey) :
  key_compare a b = Lt <->
  (fst a < fst b \/ (fst a = fst b /\ snd a < snd b))%N.
Proof.
  unfold key_compare.
  destruct (N.compare_spec (fst a) (fst b)); rewrite ?N.compare_lt_iff;
    split; intros; try discriminate; try lia; auto.
Qed.

Lemma key_compare_gt (a b : ckey) :
  key_compare a b = Gt <-> key_compare b a = Lt.
Proof.
  unfold key_compare. rewrite (N.compare_antisym (fst a) (fst b)).
  rewrite (N.compare_antisym (snd a) (snd b)).
  destruct (N.compare (fst a) (fst b)), (N.compare (snd a) (snd b));
    cbn; split; congruence.
Qed.

Lemma key_compare_lt_trans (a b c : ckey) :
  key_compare a b = Lt -> key_compare b c = Lt -> key_compare a c = Lt.
Proof. rewrite !key_compare_lt. lia. Qed.

Lemma lex_compare_refl (a : list ckey) : lex_compare a a = Eq.
Proof.
  induction a as [|x a IH]; [reflexivity|].
  cbn [lex_compare]. now rewrite key_compare_refl.
Qed.

Lemma lex_compare_gt (a b : list ckey) :
  lex_compare a b = Gt <-> lex_compare b a = Lt.
Proof.
  revert b. induction a as [|x a IH]; intros [|y b]; cbn [lex_compare];
    try (split; congruence).
  destruct (key_compare x y) eqn:E.
  - apply key_compare_eq in E. subst. rewrite key_compare_refl. apply IH.
  - assert (key_compare y x = Gt) as -> by now apply key_compare_gt.
    split; congruence.
  - apply key_compare_gt in E. rewrite E. split; congruence.
Qed.

Lemma lex_compare_trans (a b c : list ckey) :
  lex_compare a b <> Gt -> lex_compare b c <> Gt -> lex_compare a c <> Gt.
Proof.
  revert b c. induction a as [|x a IH]; intros [|y b] [|z c];
    cbn [lex_compare]; try congruence.
  destruct (key_compare x y) eqn:Exy; try congruence.
  - apply key_compare_eq in Exy. subst y.
    destruct (key_compare x z); try congruence. apply IH.
  - intros _. destruct (key_compare y z) eqn:Eyz; try congruence.
    + apply key_compare_eq in Eyz. subst z. rewrite Exy. congruence.
    + rewrite (key_compare_lt_trans _ _ _ Exy Eyz). congruence.
Qed.

Lemma lex_compare_app (l a b : list ckey) :
  lex_compare (l ++ a) (l ++ b) = lex_compare a b.
Proof.
  induction l as [|x l IH]; [reflexivity|].
  cbn [app lex_compare]. now rewrite key_compare_refl.
Qed.

Lemma localeCompare_total (a b : string) :
  localeCompare a b = Gt -> localeCompare b a <> Gt.
Proof.
  unfold localeCompare. intros H%lex_compare_gt. congruence.
Qed.

Lemma compareByPartNumber_total (a b : Product.t) :
  compareByPartNumber a b = Gt -> compareByPartNumber b a <> Gt.
Proof. apply localeCompare_total. Qed.

Lemma part_le_trans (a b c : Product.t) :
  part_le a b -> part_le b c -> part_le a c.
Proof. unfold part_le, compareByPartNumber, localeCompare. apply lex_compare_trans. Qed.

(** Case is ignored. *)
Lemma collation_keys_toLowerCase (s : string) (run : option N) :
  collation_keys run (toLowerCase s) = collation_keys run s.
Proof.
  revert run. induction s as [|c r IH]; intros run; [reflexivity|].
  cbn [toLowerCase collation_keys].
  assert (is_digit (toLowerCase_char c) = is_digit c) as ->
    by (destruct c as [[] [] [] [] [] [] [] []]; reflexivity).
  assert (char_key (toLowerCase_char c) = char_key c) as ->
    by (destruct c as [[] [] [] [] [] [] [] []]; reflexivity).
  destruct (is_digit c) eqn:E.
  - assert (extend run (toLowerCase_char c) = extend run c) as ->.
    { unfold extend, digit_value.
      destruct c as [[] [] [] [] [] [] [] []]; try discriminate E;
        reflexivity. }
    apply IH.
  - now rewrite IH.
Qed.

(** A run of digits is one key, the number it denotes. *)
Lemma collation_keys_digits (d : string) (n : N) :
  all_digits d = true ->
  collation_keys (Some n) d
  = [(1%N, fold_left (fun n c => (10 * n + digit_value c)%N)
             (list_ascii_of_string d) n)].
Proof.
  revert n. induction d as [|c r IH]; intros n H; [reflexivity|].
  cbn [all_digits] in H. apply andb_prop in H as [Hc Hr].
  cbn [collation_keys list_ascii_of_string fold_left]. rewrite Hc.
  now rewrite IH.
Qed.

Lemma collation_keys_number (d : string) :
  all_digits d = true -> d <> "" ->
  collation_keys None d = [(1%N, numeric_value d)].
Proof.
  destruct d as [|c r]; [congruence|]. intros H _.
  cbn [all_digits] in H. apply andb_prop in H as [Hc Hr].
  cbn [collation_keys]. rewrite Hc.
  rewrite collation_keys_digits by assumption.
  unfold numeric_value. cbn [list_ascii_of_string fold_left extend].
  reflexivity.
Qed.

Lemma collation_keys_prefix (p s : string) :
  no_digit p = true ->
  collation_keys None (p +:+ s)
  = map char_key (list_ascii_of_string p) ++ collation_keys None s.
Proof.
  induction p as [|c r IH]; intros H; [reflexivity|].
  cbn [no_digit] in H. apply andb_prop in H as [Hc Hr].
  apply negb_true_iff in Hc.
  change (String c r +:+ s) with (String c (r +:+ s)).
  cbn [collation_keys list_ascii_of_string map app flush].
  rewrite Hc. now rewrite IH.
Qed.

(** After a common prefix without digits, two runs of digits compare as
    the numbers they denote. *)
Lemma localeCompare_numeric (p d1 d2 : string) :
  no_digit p = true ->
  all_digits d1 = true -> d1 <> "" ->
  all_digits d2 = true -> d2 <> "" ->
  localeCompare (p +:+ d1) (p +:+ d2)
  = (numeric_value d1 ?= numeric_value d2)%N.
Proof.
  intros Hp H1 N1 H2 N2. unfold localeCompare.
  rewrite !collation_keys_prefix by assumption.
  rewrite lex_compare_app, !collation_keys_number by assumption.
  cbn [lex_compare]. unfold key_compare. cbn [fst snd].
  rewrite N.compare_refl. now destruct (_ ?= _)%N.
Qed.

(** ** Products loading *)

Lemma forEach_cachePricing (l : list Product.t) (st : State) :
  forEach l (fun product =>
    match Product.pricingData product with
    | Some pd =>
        if truthy (Product.ingramPartNumber product)
        then modify (fun st =>
               set_pricingData
                 (<[prop_key (Product.ingramPartNumber product) := pd]>
                    (pricingData st)) st)
        else ret tt
    | None => ret tt
    end) st
  = (tt, set_pricingData (fold_left cachePricing l (pricingData st)) st, []).
Proof.
  revert st. induction l as [|p l IH]; intros st.
  - destruct st; reflexivity.
  - cbn [forEach fold_left]. unfold bind, cachePricing at 2.
    destruct (Product.pricingData p) as [pd|];
      [destruct (truthy (Product.ingramPartNumber p))|];
      cbv beta iota delta [modify ret]; rewrite IH; destruct st; reflexivity.
Qed.

(** [renderPagination] writes the pager and nothing else. *)
Lemma renderPagination_run (pagination : option Pagination) (st : State) :
  renderPagination pagination st
  = (tt, set_paginationView
           (paginationView (exec (renderPagination pagination) st)) st, []).
Proof.
  destruct pagination as [pg|]; [|reflexivity].
  unfold renderPagination, exec. destruct (totalPagesOf pg <=? 1)%Z; reflexivity.
Qed.

Lemma displayProductsWithPricing_run products pagination (st : State) :
  displayProductsWithPricing products pagination st
  = (tt,
     exec (renderPagination pagination)
       (set_pricingData
          (fold_left cachePricing (Array_sort compareByPartNumber products) ∅)
          (set_currentProducts (Array_sort compareByPartNumber products) st)),
     []).
Proof.
  unfold displayProductsWithPricing, bind, modify.
  rewrite forEach_cachePricing. fields.
  unfold exec, renderPagination.
  destruct pagination as [pg|]; [destruct (totalPagesOf pg <=? 1)%Z|];
    destruct st; reflexivity.
Qed.

Lemma loadProducts_settle_ok products pagination (st : State) :
  products <> [] ->
  loadProducts_settle (PageOk products pagination) st
  = (tt,
     exec (renderPagination pagination)
       (set_pricingData
          (fold_left cachePricing (Array_sort compareByPartNumber products) ∅)
          (set_currentProducts (Array_sort compareByPartNumber products)
             (recordedTotals products pagination st))),
     [ShowStatus MsgNone blank]).
Proof.
  intros H. unfold loadProducts_settle.
  destruct products as [|p l]; [congruence|].
  cbn [length Nat.ltb Nat.leb]. unfold bind, modify.
  rewrite displayProductsWithPricing_run. reflexivity.
Qed.

Lemma renderPagination_frame (pagination : option Pagination) (st : State) :
  let st' := exec (renderPagination pagination) st in
  currentProducts st' = currentProducts st /\
  pricingData st' = pricingData st /\
  queuedProducts st' = queuedProducts st /\
  selectedProducts st' = selectedProducts st.
Proof.
  cbv zeta. unfold exec at 1 2 3 4. rewrite renderPagination_run.
  repeat split.
Qed.

(** What the page shows after a successful load. *)
Lemma loadProducts_settle_shown products pagination (st : State) :
  products <> [] ->
  currentProducts (exec (loadProducts_settle (PageOk products pagination)) st)
  = Array_sort compareByPartNumber products.
Proof.
  intros H. unfold exec. rewrite loadProducts_settle_ok by assumption.
  cbn [fst snd]. now rewrite (proj1 (renderPagination_frame _ _)).
Qed.



(** ** The pricing table *)

Lemma cachePricing_lookup (l : list Product.t) (m : gmap string PricingData.t)
    (k : string) (pd : PricingData.t) :
  fold_left cachePricing l m !! k = Some pd ->
  m !! k = Some pd \/
  exists p, In p l /\ Product.ingramPartNumber p = Some k /\
            Product.pricingData p = Some pd.
Proof.
  revert m. induction l as [|p l IH]; intros m H; [now left|].
  cbn [fold_left] in H. apply IH in H as [H | (q & Hq & Hk & Hpd)].
  - unfold cachePricing in H.
    destruct (Product.pricingData p) as [pd'|] eqn:Epd; [|now left].
    destruct (Product.ingramPartNumber p) as [[|c s]|] eqn:Ei;
      cbn [truthy prop_key] in H; try now left.
    destruct (decide (String c s = k)) as [<- | Hne].
    + rewrite lookup_insert_eq in H. injection H as <-.
      right. exists p. repeat split; auto. now left.
    + rewrite lookup_insert_ne in H by assumption. now left.
  - right. exists q. repeat split; auto. now right.
Qed.

Lemma cachePricing_present (l : list Product.t) (m : gmap string PricingData.t)
    (k : string) :
  is_Some (m !! k) \/
  (exists p pd, In p l /\ truthy (Product.ingramPartNumber p) = true /\
                prop_key (Product.ingramPartNumber p) = k /\
                Product.pricingData p = Some pd) ->
  is_Some (fold_left cachePricing l m !! k).
Proof.
  revert m. induction l as [|p l IH]; intros m H.
  - destruct H as [H | (q & pd & [] & _)]. exact H.
  - cbn [fold_left]. apply IH.
    destruct H as [H | (q & pd & [<- | Hq] & Ht & Hk & Hpd)].
    + left. unfold cachePricing.
      destruct (Product.pricingData p); [|exact H].
      destruct (truthy (Product.ingramPartNumber p)); [|exact H].
      destruct (decide (prop_key (Product.ingramPartNumber p) = k)) as [<- | Hne].
      * rewrite lookup_insert_eq. eauto.
      * now rewrite lookup_insert_ne.
    + left. unfold cachePricing. rewrite Hpd, Ht, Hk, lookup_insert_eq. eauto.
    + right. eauto 8.
Qed.

Lemma loadProducts_run (page : Z) (st : State) :
  loadProducts page st
  = if nonempty (manufacturer st)
    then (true, set_currentPage page st,
          [ShowStatus MsgLoadingProducts loading;
           Fetch ([("action", QStr "productsWithPricing");
                   ("vendor", QStr (manufacturer st));
                   ("page", QNum page)]
                    ++ opt_param "category" (category st)
                    ++ opt_param "subCategory" (subcategory st)
                    ++ opt_param "type" (skuType st)
                    ++ keyword_param st)])
    else (false, st, [ShowStatus MsgSelectManufacturerFirst error]).
Proof.
  unfold loadProducts, bind, get. cbn [fst snd].
  destruct (nonempty (manufacturer st)); reflexivity.
Qed.




(** ** The pager *)

Lemma renderPagination_view (pagination : option Pagination) (st st' : State) :
  paginationView (exec (renderPagination pagination) st)
  = paginationView (exec (renderPagination pagination) st').
Proof.
  destruct pagination as [pg|]; [|reflexivity].
  unfold renderPagination. destruct (totalPagesOf pg <=? 1)%Z; reflexivity.
Qed.




(** ** The keyword *)

Lemma trimEnd_cons (c : ascii) (r : string) :
  trimEnd (String c r)
  = match trimEnd r with
    | EmptyString => if is_space c then EmptyString else String c EmptyString
    | r' => String c r'
    end.
Proof. reflexivity. Qed.

Lemma trimEnd_idempotent (s : string) : trimEnd (trimEnd s) = trimEnd s.
Proof.
  induction s as [|c r IH]; [reflexivity|].
  rewrite trimEnd_cons. destruct (trimEnd r) as [|c' r'] eqn:E.
  - destruct (is_space c) eqn:Ec; [reflexivity|].
    rewrite trimEnd_cons. cbn [trimEnd]. now rewrite Ec.
  - rewrite trimEnd_cons, IH. reflexivity.
Qed.

Lemma trimStart_clean (s : string) : starts_clean (trimStart s).
Proof.
  induction s as [|c r IH]; [exact I|].
  cbn [trimStart]. destruct (is_space c) eqn:E; [exact IH | exact E].
Qed.

Lemma trimStart_of_clean (s : string) : starts_clean s -> trimStart s = s.
Proof. destruct s as [|c r]; [reflexivity|]. cbn. now intros ->. Qed.

Lemma trimEnd_clean (s : string) : starts_clean s -> starts_clean (trimEnd s).
Proof.
  destruct s as [|c r]; [exact id|]. cbn [starts_clean trimEnd]. intros E.
  destruct (trimEnd r); [rewrite E|]; exact E.
Qed.

Lemma trim_idempotent (s : string) : trim (trim s) = trim s.
Proof.
  unfold trim.
  rewrite (trimStart_of_clean (trimEnd (trimStart s)))
    by apply trimEnd_clean, trimStart_clean.
  apply trimEnd_idempotent.
Qed.

(** The keyword in the state is always trimmed: the listener of the
    keyword box and the reset of the filters are the only writers. *)
Lemma keyword_is_trimmed (st : State) (v : string) :
  (let st' := exec (onSkuSearchInput v) st in
   skuKeyword st' = trim (skuKeyword st')) /\
  (let st' := exec resetOptionalFilters st in
   skuKeyword st' = trim (skuKeyword st')).
Proof. split; mrun; [symmetry; apply trim_idempotent | reflexivity]. Qed.

Lemma has_keyword_app (a b : url) :
  has_keyword (a ++ b) = has_keyword a || has_keyword b.
Proof. apply existsb_app. Qed.

Lemma has_keyword_cons (k : string) (v : qval) (u : url) :
  String.eqb k "keyword" = false -> has_keyword ((k, v) :: u) = has_keyword u.
Proof. intros H. unfold has_keyword. cbn [existsb fst]. now rewrite H. Qed.

Lemma has_keyword_opt_param (k v : string) :
  String.eqb k "keyword" = false -> has_keyword (opt_param k v) = false.
Proof.
  intros H. unfold opt_param. destruct (nonempty v); [|reflexivity].
  cbn. now rewrite H.
Qed.

(** C10. With a manufacturer chosen and the keyword held trimmed, as the
    handlers keep it: when the trimmed keyword has fewer than two
    characters the page request carries no keyword parameter and the
    load sends exactly what it sends with no keyword set; when it has
    two or more, the request carries the keyword. *)
Theorem short_keyword_is_omitted (st : State) (page : Z) :
  nonempty (manufacturer st) = true ->
  skuKeyword st = trim (skuKeyword st) ->
  (String.length (trim (skuKeyword st)) < 2 ->
   sent (loadProducts page) st = sent (loadProducts page) (set_skuKeyword "" st) /\
   forall u, In (Fetch u) (sent (loadProducts page) st) -> has_keyword u = false) /\
  (2 <= String.length (trim (skuKeyword st)) ->
   exists u,
     requests (sent (loadProducts page) st) = [u] /\
     In ("keyword", QStr (skuKeyword st)) u).
Proof.
  intros Hm Ht. rewrite <- Ht. unfold sent. rewrite !loadProducts_run.
  fields. rewrite Hm. cbn [snd]. split; intros Hlen.
  - assert (keyword_param st = []) as Hk.
    { unfold keyword_param.
      destruct (Nat.leb_spec 2 (String.length (skuKeyword st))); [lia|].
      now rewrite andb_false_r. }
    rewrite Hk. split; [reflexivity|].
    intros u [Hu | [Hu | []]]; [discriminate|]. injection Hu as <-.
    rewrite !has_keyword_cons by reflexivity.
    rewrite !has_keyword_app, !has_keyword_opt_param by reflexivity.
    reflexivity.
  - eexists. split; [reflexivity|].
    rewrite !in_app_iff. do 4 right. unfold keyword_param.
    destruct (skuKeyword st) as [|c r] eqn:E; [cbn in Hlen; lia|].
    cbn [nonempty andb]. apply Nat.leb_le in Hlen. rewrite Hlen. now left.
Qed.

Lemma short_keyword_is_omitted_witness :
  let st := exec (onSkuSearchInput "  a ") acme_state in
  let st2 := exec (onSkuSearchInput " ab ") acme_state in
  (sent (loadProducts 1) st = sent (loadProducts 1) (set_skuKeyword "" st) /\
   forall u, In (Fetch u) (sent (loadProducts 1) st) -> has_keyword u = false) /\
  (exists u,
     requests (sent (loadProducts 1) st2) = [u] /\
     In ("keyword", QStr (skuKeyword st2)) u).
Proof.
  cbv zeta. split.
  - apply (short_keyword_is_omitted (exec (onSkuSearchInput "  a ") acme_state) 1);
      [reflexivity | reflexivity | vm_compute; lia].
  - apply (short_keyword_is_omitted (exec (onSkuSearchInput " ab ") acme_state) 1);
      [reflexivity | reflexivity | vm_compute; lia].
Defined.

(** ** Submission *)

Lemma knownPricing_contract (st : State) (p : Product.t) :
  knownPricing st p = Contract.pricing_record st p.
Proof.
  unfold knownPricing, Contract.pricing_record.
  destruct (Product.pricingData p); [reflexivity|].
  now destruct (Product.ingramPartNumber p).
Qed.

Lemma or_str_else_empty (o : option string) :
  or_str o "" = Contract.else_empty o.
Proof. now destruct o as [[|c r]|]. Qed.

Lemma or_str_falling_back (o : option string) (s : string) :
  or_str o s = Contract.falling_back o s.
Proof. now destruct o as [[|c r]|]. Qed.

Lemma or_str_filter (o : option string) (s : string) :
  or_str o (or_str (Some s) "") = Contract.falling_back o s.
Proof. destruct o as [[|c r]|]; try reflexivity; now destruct s. Qed.

Lemma distributor_name (key : string) (d : Distributor) :
  DISTRIBUTORS key = Some d ->
  or_str (option_map name (DISTRIBUTORS key)) "Ingram Micro" = name d.
Proof.
  intros H. rewrite H. unfold DISTRIBUTORS in H.
  destruct (String.eqb key "ingram"); [now injection H as <-|].
  destruct (String.eqb key "tdsynnex"); [now injection H as <-|].
  destruct (String.eqb key "arrow"); [now injection H as <-|].
  discriminate.
Qed.

Lemma msrp_contract (a b : option Q) :
  or_null (or_num a b)
  = match Contract.price a with
    | Some q => Some q
    | None => Contract.price b
    end.
Proof.
  unfold or_null, or_num, truthy_num, Contract.price.
  destruct a as [qa|]; [destruct (Qnum qa =? 0)%Z eqn:Ea|]; cbn [negb];
    rewrite ?Ea; cbn [negb];
    (destruct b as [qb|]; [destruct (Qnum qb =? 0)%Z eqn:Eb|]); cbn [negb];
    rewrite ?Ea, ?Eb; reflexivity.
Qed.

(** [formatProduct] builds the entry the contract describes. *)
Lemma formatProduct_contract (st : State) (d : Distributor) (p : Product.t) :
  DISTRIBUTORS (currentDistributor st) = Some d ->
  formatProduct st p = Contract.entry st (name d) p.
Proof.
  intros Hd. unfold formatProduct, Contract.entry.
  rewrite knownPricing_contract.
  f_equal;
    try first [ apply or_str_else_empty | apply or_str_filter
              | apply or_str_falling_back | apply (distributor_name _ _ Hd) ].
  - rewrite msrp_contract. f_equal.
    unfold pricing_retailPrice, Contract.record_retailPrice.
    now destruct (Contract.pricing_record st p).
  - unfold or_else, Contract.record_upc.
    destruct (Contract.pricing_record st p) as [pd|]; cbn [PricingData.upc PricingData.empty truthy];
    [destruct (PricingData.upc pd) as [[|c r]|]|];
      destruct (Product.upcCode p) as [[|c' r']|]; reflexivity.
  - unfold or_else, Contract.record_description.
    destruct (Contract.pricing_record st p) as [pd|];
      cbn [PricingData.description PricingData.empty];
    [destruct (PricingData.description pd) as [[|c' r']|]|];
    destruct (Product.extraDescription p) as [[|c r]|]; reflexivity.
Qed.

(** C1. With the active distributor configured and the host present,
    [submitQueue] of a non-empty queue leaves the state as it is and
    hands the host one entry per queue entry, in queue order, built as
    the contract says, together with the distributor key; with an empty
    queue it shows the error status and hands over nothing. *)
Theorem submission_payload (st : State) (d : Distributor) :
  DISTRIBUTORS (currentDistributor st) = Some d ->
  (queuedProducts st <> [] ->
   submitQueue true st
   = (tt, st,
      [ClientClose (map (Contract.entry st (name d)) (queuedProducts st))
                   (currentDistributor st)])) /\
  (queuedProducts st = [] ->
   forall client,
     submitQueue client st = (tt, st, [ShowStatus MsgNoQueue error])).
Proof.
  intros Hd. unfold submitQueue, bind, get. cbn [fst snd]. split.
  - intros Hq. destruct (queuedProducts st) as [|p q] eqn:E; [congruence|].
    cbn [length Nat.eqb]. unfold emit.
    rewrite (map_ext _ _ (fun a => formatProduct_contract st d a Hd)).
    reflexivity.
  - intros -> client. reflexivity.
Qed.

Lemma submission_payload_witness :
  let st := set_queuedProducts [part_X1] acme_state in
  submitQueue true st
  = (tt, st,
     [ClientClose
        [{| Product_Code := "X1"; Product_Name := ""; Manufacturer := "Acme";
            Ingram_Micro_SKU := "SKU-X1"; MSRP := Some (1999 # 100);
            Category := ""; Subcategory := ""; UPC := "012345";
            Description := ""; Last_Sync_Source := "Ingram Micro";
            Quantity := 1 |}]
        "ingram"]) /\
  forall client,
    submitQueue client acme_state = (tt, acme_state, [ShowStatus MsgNoQueue error]).
Proof.
  cbv zeta. split.
  - exact (proj1 (submission_payload (set_queuedProducts [part_X1] acme_state)
                    {| name := "Ingram Micro"; apiPrefix := "/api";
                       disabled := false |} eq_refl)
             ltac:(discriminate)).
  - exact (proj2 (submission_payload acme_state
                    {| name := "Ingram Micro"; apiPrefix := "/api";
                       disabled := false |} eq_refl) eq_refl).
Defined.

(** ** Adding the selection to the queue *)

Lemma strict_eq_true (a b : option string) : strict_eq a b = true <-> a = b.
Proof.
  destruct a as [x|], b as [y|]; cbn [strict_eq];
    rewrite ?String.eqb_eq; split; congruence.
Qed.

Lemma strict_eq_false (a b : option string) : strict_eq a b = false <-> a <> b.
Proof.
  rewrite <- strict_eq_true. destruct (strict_eq a b); split; congruence.
Qed.

Lemma identity_enriched (st : State) (p : Product.t) :
  identity (enriched st p) = identity p.
Proof. reflexivity. Qed.

Lemma alreadyQueued_app (q1 q2 : list Product.t) (k : option string) :
  alreadyQueued (q1 ++ q2) k = alreadyQueued q1 k || alreadyQueued q2 k.
Proof. apply existsb_app. Qed.

Lemma alreadyQueued_In (q : list Product.t) (k : option string) :
  alreadyQueued q k = true <-> In k (map identity q).
Proof.
  unfold alreadyQueued. rewrite existsb_exists, in_map_iff.
  split; intros (p & H1 & H2).
  - exists p. split; [now apply strict_eq_true | assumption].
  - exists p. split; [assumption | now apply strict_eq_true].
Qed.

Lemma freshOf_grown (st : State) (queue l : list Product.t) (p : Product.t) :
  ~ In (identity p) (map identity l) ->
  freshOf (queue ++ [enriched st p]) l = freshOf queue l.
Proof.
  intros Hp. unfold freshOf. apply filter_ext_in. intros x Hx.
  rewrite alreadyQueued_app. cbn [alreadyQueued existsb].
  rewrite identity_enriched.
  assert (strict_eq (identity p) (identity x) = false) as ->.
  { apply strict_eq_false. intros E. apply Hp. rewrite E. now apply in_map. }
  now rewrite !orb_false_r.
Qed.

Lemma addAll_run (l : list Product.t) (st : State) (n : nat) :
  List.NoDup (map identity l) ->
  addAll l n st
  = (n + length (freshOf (queuedProducts st) l),
     set_queuedProducts
       (queuedProducts st ++ map (enriched st) (freshOf (queuedProducts st) l)) st,
     []).
Proof.
  revert st n. induction l as [|p l IH]; intros st n Hnd.
  - cbn. rewrite Nat.add_0_r, app_nil_r. now destruct st.
  - inversion Hnd as [|? ? Hp Hl]; subst.
    cbn [addAll]. unfold bind, addOne at 1. unfold bind, get. cbn [fst snd].
    unfold freshOf. cbn [List.filter]. fold (freshOf (queuedProducts st) l).
    destruct (alreadyQueued (queuedProducts st) (identity p)) eqn:E; cbn [negb].
    + cbv beta iota delta [ret]. rewrite IH by assumption. reflexivity.
    + cbv beta iota delta [modify ret]. rewrite IH by assumption. fields.
      change (Product.with_pricingData p (knownPricing st p))
        with (enriched st p).
      change (enriched (set_queuedProducts (queuedProducts st ++ [enriched st p]) st))
        with (enriched st).
      rewrite freshOf_grown by assumption.
      cbn [length map app]. rewrite <- app_assoc. cbn [app Nat.add].
      rewrite Nat.add_succ_r. now destruct st.
Qed.

Lemma selection_keyed_NoDup (m : list (string * Product.t)) :
  selection_keyed m -> List.NoDup (map identity (Map_values m)).
Proof.
  intros [Hk Hv]. unfold Map_values. rewrite map_map.
  assert (map (fun kv => identity (snd kv)) m = map Some (map fst m)) as ->.
  { rewrite map_map. apply map_ext_in. intros kv Hkv.
    rewrite List.Forall_forall in Hv. now apply Hv. }
  apply Finite.Injective_map_NoDup; [|assumption].
  intros a b. congruence.
Qed.

Lemma displayProductsWithPricing_frame products pagination (st : State) :
  let st' := exec (displayProductsWithPricing products pagination) st in
  queuedProducts st' = queuedProducts st /\
  selectedProducts st' = selectedProducts st /\
  sent (displayProductsWithPricing products pagination) st = [].
Proof.
  cbv zeta. unfold exec, sent. rewrite displayProductsWithPricing_run.
  cbn [fst snd].
  pose proof (renderPagination_frame pagination
    (set_pricingData
       (fold_left cachePricing (Array_sort compareByPartNumber products) ∅)
       (set_currentProducts (Array_sort compareByPartNumber products) st)))
    as (_ & _ & Hq & Hs).
  rewrite Hq, Hs. repeat split.
Qed.



(** ** Reordering the queue by groups *)

Lemma push_all {A} (l acc : list A) :
  fold_left (fun newOrder p => newOrder ++ [p]) l acc = acc ++ l.
Proof.
  revert acc. induction l as [|x l IH]; intros acc; cbn [fold_left].
  - now rewrite app_nil_r.
  - rewrite IH, <- app_assoc. reflexivity.
Qed.

Lemma reorderByGroups_run (mfrOrder : list string) (st : State) :
  reorderByGroups mfrOrder st
  = (tt,
     set_queuedProducts
       (flat_map (fun mfr => groupEntries st mfr (queuedProducts st)) mfrOrder)
       st,
     []).
Proof.
  unfold reorderByGroups, bind, get, modify. cbn [fst snd app].
  assert (forall acc,
    fold_left (fun newOrder mfr =>
      fold_left (fun newOrder p => newOrder ++ [p])
        (List.filter (fun p => String.eqb (groupOf st p) mfr) (queuedProducts st))
        newOrder) mfrOrder acc
    = acc ++ flat_map (fun mfr => groupEntries st mfr (queuedProducts st)) mfrOrder)
    as ->; [|reflexivity].
  induction mfrOrder as [|m M IH]; intros acc; cbn [fold_left flat_map].
  - now rewrite app_nil_r.
  - rewrite IH, push_all, <- app_assoc. reflexivity.
Qed.

Lemma flat_map_ext_In {A B} (f h : A -> list B) (l : list A) :
  (forall a, In a l -> f a = h a) -> flat_map f l = flat_map h l.
Proof.
  induction l as [|x l IH]; intros H; [reflexivity|].
  cbn [flat_map]. rewrite H by now left.
  rewrite IH; [reflexivity|]. intros a Ha. apply H. now right.
Qed.

Section Groups.
Variable g : Product.t -> string.

Let block (q : list Product.t) (m : string) : list Product.t :=
  List.filter (fun p => String.eqb (g p) m) q.

Let others (q : list Product.t) (m : string) : list Product.t :=
  List.filter (fun p => negb (String.eqb (g p) m)) q.

Lemma block_others_perm (q : list Product.t) (m : string) :
  Permutation (block q m ++ others q m) q.
Proof.
  induction q as [|x q IH]; [reflexivity|].
  unfold block, others in *. cbn [List.filter].
  destruct (String.eqb (g x) m); cbn [negb app].
  - now constructor.
  - rewrite <- Permutation_middle. now constructor.
Qed.

Lemma block_of_others (q : list Product.t) (m m' : string) :
  m' <> m -> block (others q m) m' = block q m'.
Proof.
  intros Hne. unfold block, others.
  induction q as [|x q IH]; [reflexivity|].
  cbn [List.filter]. destruct (String.eqb (g x) m) eqn:E; cbn [negb List.filter].
  - apply String.eqb_eq in E.
    assert (String.eqb (g x) m' = false) as ->; [|exact IH].
    apply String.eqb_neq. congruence.
  - now rewrite IH.
Qed.

Lemma block_of_block (q : list Product.t) (m m' : string) :
  block (block q m') m = if String.eqb m' m then block q m else [].
Proof.
  unfold block. induction q as [|x q IH]; [now destruct (String.eqb m' m)|].
  cbn [List.filter]. destruct (String.eqb (g x) m') eqn:E; cbn [List.filter].
  - apply String.eqb_eq in E. subst m'. rewrite IH.
    now destruct (String.eqb (g x) m).
  - rewrite IH. destruct (String.eqb m' m) eqn:E'; [|reflexivity].
    apply String.eqb_eq in E'. subst m'. now rewrite E.
Qed.

Lemma block_empty (q : list Product.t) (m : string) :
  (forall p, In p q -> g p <> m) -> block q m = [].
Proof.
  intros H. unfold block. induction q as [|x q IH]; [reflexivity|].
  cbn [List.filter].
  assert (String.eqb (g x) m = false) as ->
    by (apply String.eqb_neq, H; now left).
  apply IH. intros p Hp. apply H. now right.
Qed.

Lemma blocks_perm (M : list string) (q : list Product.t) :
  List.NoDup M -> (forall p, In p q -> In (g p) M) ->
  Permutation (flat_map (block q) M) q.
Proof.
  revert q. induction M as [|m M IH]; intros q Hnd Hcov.
  - destruct q as [|x q]; [reflexivity|]. destruct (Hcov x). now left.
  - inversion Hnd as [|? ? Hm HM]; subst. cbn [flat_map].
    rewrite <- (block_others_perm q m) at 3.
    apply Permutation_app_head.
    rewrite <- (IH (others q m) HM).
    + rewrite (flat_map_ext_In (block (others q m)) (block q)); [reflexivity|].
      intros m' Hm'. apply block_of_others. congruence.
    + intros p Hp. unfold others in Hp. apply filter_In in Hp as [Hp Hg].
      destruct (Hcov p Hp) as [E | H]; [|exact H].
      rewrite <- E, String.eqb_refl in Hg. discriminate.
Qed.

Lemma blocks_keep_groups (M : list string) (q : list Product.t) (m : string) :
  List.NoDup M -> (forall p, In p q -> In (g p) M) ->
  block (flat_map (block q) M) m = block q m.
Proof.
  intros Hnd Hcov.
  assert (forall N, List.NoDup N ->
            block (flat_map (block q) N) m
            = if existsb (fun m' => String.eqb m' m) N then block q m else [])
    as H.
  { clear. intros N. induction N as [|m' M IH]; intros Hnd; [reflexivity|].
    inversion Hnd as [|? ? Hm HM]; subst. cbn [flat_map existsb].
    unfold block at 1. rewrite List.filter_app. fold (block (block q m') m).
    fold (block (flat_map (block q) M) m).
    rewrite block_of_block, (IH HM).
    destruct (String.eqb m' m) eqn:E; cbn [orb].
    - apply String.eqb_eq in E. subst m'.
      assert (existsb (fun m' => String.eqb m' m) M = false) as ->.
      { apply not_true_is_false. intros (x & Hx & Ex)%existsb_exists.
        apply String.eqb_eq in Ex. congruence. }
      apply app_nil_r.
    - reflexivity. }
  rewrite (H M Hnd). destruct (existsb _ M) eqn:E; [reflexivity|].
  symmetry. apply block_empty. intros p Hp Hg.
  apply not_true_iff_false in E. apply E, existsb_exists.
  exists (g p). split; [now apply Hcov | now apply String.eqb_eq].
Qed.

Lemma rank_head (m : string) (M : list string) : rank (m :: M) m = 0.
Proof. cbn [rank]. now rewrite String.eqb_refl. Qed.

Lemma rank_tail (m x : string) (M : list string) :
  x <> m -> rank (m :: M) x = S (rank M x).
Proof.
  intros H. cbn [rank].
  assert (String.eqb m x = false) as -> by (apply String.eqb_neq; congruence).
  reflexivity.
Qed.

Lemma In_blocks (M : list string) (q : list Product.t) (p : Product.t) :
  In p (flat_map (block q) M) -> In (g p) M /\ In p q.
Proof.
  intros (m & Hm & Hp)%in_flat_map. unfold block in Hp.
  apply filter_In in Hp as [Hp Hg]. apply String.eqb_eq in Hg. now subst.
Qed.

Lemma sorted_shift (m : string) (M : list string) (l : list Product.t) :
  (forall p, In p l -> g p <> m) ->
  StronglySorted (fun a b => rank M (g a) <= rank M (g b)) l ->
  StronglySorted (fun a b => rank (m :: M) (g a) <= rank (m :: M) (g b)) l.
Proof.
  intros Hne Hs. induction Hs as [|y l Hl IHl Hy]; constructor.
  - apply IHl. intros p Hp. apply Hne. now right.
  - rewrite List.Forall_forall in *. intros z Hz.
    rewrite !rank_tail by (apply Hne; first [now left | now right]).
    apply le_n_S, Hy, Hz.
Qed.

Lemma sorted_first_block (m : string) (M : list string) (b l : list Product.t) :
  (forall p, In p b -> g p = m) ->
  StronglySorted (fun a b => rank (m :: M) (g a) <= rank (m :: M) (g b)) l ->
  StronglySorted (fun a b => rank (m :: M) (g a) <= rank (m :: M) (g b))
    (b ++ l).
Proof.
  intros Hb Hl. induction b as [|x b IHb]; cbn [app]; [exact Hl|].
  constructor.
  - apply IHb. intros p Hp. apply Hb. now right.
  - rewrite List.Forall_forall. intros z Hz.
    rewrite (Hb x) by now left. rewrite rank_head. lia.
Qed.

Lemma blocks_sorted (M : list string) (q : list Product.t) :
  List.NoDup M ->
  StronglySorted (fun a b => rank M (g a) <= rank M (g b))
    (flat_map (block q) M).
Proof.
  induction M as [|m M IH]; intros Hnd; [constructor|].
  inversion Hnd as [|? ? Hm HM]; subst. cbn [flat_map].
  apply sorted_first_block.
  - intros p Hp. unfold block in Hp. apply filter_In in Hp as [_ Hg].
    now apply String.eqb_eq.
  - apply sorted_shift; [|now apply IH].
    intros p Hp%In_blocks E. destruct Hp as [Hp _]. now subst.
Qed.
End Groups.

(** C3. [reorderByGroups] makes the queue the concatenation, manufacturer
    by manufacturer in the given order, of the entries the queue has for
    that manufacturer, in their queue order. When the order names every
    manufacturer of the queue, and each once, the new queue is a
    rearrangement of the old one, ordered by the position of the
    manufacturer in the given order, and the entries of each manufacturer
    are the same and in the same order as before. *)
Theorem group_reorder_is_stable (st : State) (mfrOrder : list string) :
  (forall p, In p (queuedProducts st) -> In (groupOf st p) mfrOrder) ->
  let queue' := queuedProducts (exec (reorderByGroups mfrOrder) st) in
  queue' = flat_map (fun mfr => groupEntries st mfr (queuedProducts st)) mfrOrder /\
  (List.NoDup mfrOrder ->
   Permutation queue' (queuedProducts st) /\
   (forall mfr,
      groupEntries st mfr queue' = groupEntries st mfr (queuedProducts st)) /\
   StronglySorted
     (fun a b => rank mfrOrder (groupOf st a) <= rank mfrOrder (groupOf st b))
     queue').
Proof.
  intros Hcov. cbv zeta. unfold exec. rewrite reorderByGroups_run.
  cbn [fst snd]. fields. split; [reflexivity|]. intros Hnd.
  split; [|split].
  - now apply (blocks_perm (groupOf st)).
  - intros mfr. now apply (blocks_keep_groups (groupOf st)).
  - now apply (blocks_sorted (groupOf st)).
Qed.

Lemma group_reorder_is_stable_witness :
  let st := set_queuedProducts [part_A; part_B; part_C] initial_state in
  let queue' := queuedProducts (exec (reorderByGroups ["m2"; "m1"]) st) in
  queue' = [part_B; part_A; part_C] /\
  Permutation queue' [part_A; part_B; part_C] /\
  (forall mfr,
     groupEntries st mfr queue' = groupEntries st mfr [part_A; part_B; part_C]).
Proof.
  cbv zeta.
  assert (Hcov : forall p,
            In p (queuedProducts (set_queuedProducts [part_A; part_B; part_C]
                                    initial_state)) ->
            In (groupOf (set_queuedProducts [part_A; part_B; part_C] initial_state) p)
               ["m2"; "m1"]).
  { intros p [<- | [<- | [<- | []]]]; cbn; auto. }
  assert (Hnd : List.NoDup ["m2"; "m1"]).
  { constructor; [intros [H | []]; discriminate|].
    constructor; [intros []|constructor]. }
  destruct (group_reorder_is_stable _ ["m2"; "m1"] Hcov) as (H1 & H2).
  destruct (H2 Hnd) as (H3 & H4 & _).
  split; [exact H1 | split; [exact H3 | exact H4]].
Defined.

(** ** Reordering the queue by rows *)

Lemma reorderByItems_run (items : list string) (st : State) :
  reorderByItems items st
  = (tt,
     set_queuedProducts (flat_map (rowEntry (queuedProducts st)) items) st,
     []).
Proof.
  unfold reorderByItems, bind, get, modify. cbn [fst snd app].
  assert (forall acc,
    fold_left (fun newOrder partNumber =>
      match find (fun p => strict_eq (identity p) (Some partNumber))
                 (queuedProducts st) with
      | Some product => newOrder ++ [product]
      | None => newOrder
      end) items acc
    = acc ++ flat_map (rowEntry (queuedProducts st)) items) as ->;
    [|reflexivity].
  induction items as [|s items IH]; intros acc; cbn [fold_left flat_map].
  - now rewrite app_nil_r.
  - rewrite IH. unfold rowEntry at 2.
    destruct (find _ (queuedProducts st)); [now rewrite <- app_assoc|reflexivity].
Qed.

Lemma rowEntry_found (queue : list Product.t) (s : string) :
  In (Some s) (map identity queue) ->
  exists p, rowEntry queue s = [p] /\ In p queue /\ identity p = Some s.
Proof.
  intros (x & Hx & Hin)%in_map_iff. unfold rowEntry.
  destruct (find _ queue) as [p|] eqn:E.
  - apply find_some in E as [Hp Hid]. apply strict_eq_true in Hid. eauto.
  - apply (find_none _ _ E) in Hin. apply strict_eq_false in Hin. congruence.
Qed.

Lemma rowEntry_In (queue : list Product.t) (s : string) (p : Product.t) :
  In p (rowEntry queue s) -> In p queue /\ identity p = Some s.
Proof.
  unfold rowEntry. destruct (find _ queue) as [x|] eqn:E; [|intros []].
  intros [<- | []]. apply find_some in E as [Hp Hid].
  now apply strict_eq_true in Hid.
Qed.

Lemma rows_all_found (queue : list Product.t) (items : list string) :
  (forall s, In s items -> In (Some s) (map identity queue)) ->
  map identity (flat_map (rowEntry queue) items) = map Some items.
Proof.
  induction items as [|s items IH]; intros H; [reflexivity|].
  cbn [flat_map map]. destruct (rowEntry_found queue s) as (p & -> & _ & Hid).
  { apply H. now left. }
  cbn [app map]. rewrite Hid, IH; [reflexivity|].
  intros x Hx. apply H. now right.
Qed.

(** C4 (as amended). The item branch of [handleDrop] never fails and
    reports nothing: it makes the queue the list, row by row in document
    order, of the first queue entry that has the identity the row names,
    leaving out the rows that name none. Every entry of the new queue is
    an entry of the old one; an entry whose identity no row names is
    dropped. When the queue entries have distinct identities and the rows
    name exactly those identities, the new queue is the old one
    rearranged in the order of the rows. *)
Theorem drop_follows_rows (st : State) (mfrOrder items : list string) :
  let queue := queuedProducts st in
  let queue' := queuedProducts (exec (reorderByItems items) st) in
  handleDrop false mfrOrder items st = reorderByItems items st /\
  sent (reorderByItems items) st = [] /\
  queue' = flat_map (rowEntry queue) items /\
  (forall p, In p queue' -> In p queue /\ In (identity p) (map Some items)) /\
  (List.NoDup (map identity queue) ->
   Permutation (map Some items) (map identity queue) ->
   Permutation queue' queue /\ map identity queue' = map Some items).
Proof.
  cbv zeta. unfold exec, sent. rewrite reorderByItems_run. cbn [fst snd]. fields.
  split; [|split; [reflexivity | split; [reflexivity | split]]].
  - unfold handleDrop, bind, get. cbn [fst snd]. rewrite andb_false_r.
    rewrite reorderByItems_run. reflexivity.
  - intros p (s & Hs & Hp)%in_flat_map. apply rowEntry_In in Hp as [Hp Hid].
    split; [assumption|]. rewrite Hid. now apply in_map.
  - intros Hnd Hperm.
    assert (Hids : map identity (flat_map (rowEntry (queuedProducts st)) items)
                   = map Some items).
    { apply rows_all_found. intros s Hs.
      apply (Permutation_in _ Hperm). now apply in_map. }
    split; [|exact Hids].
    apply NoDup_Permutation_bis.
    + apply (NoDup_map_inv identity). rewrite Hids.
      apply (Permutation_NoDup (Permutation_sym Hperm) Hnd).
    + rewrite <- (length_map identity (queuedProducts st)).
      rewrite <- (Permutation_length Hperm), <- Hids, length_map. reflexivity.
    + intros p (s & Hs & Hp)%in_flat_map. now apply rowEntry_In in Hp.
Qed.

(** C4, the claim as stated fails: with the rows naming only one of two
    queue entries, the drop does not abort; it reports nothing and leaves
    a queue without the other entry. *)
Lemma drop_with_missing_row_loses_entry :
  let st := set_queuedProducts [part_A; part_B] initial_state in
  ~ Permutation (map Some ["SKU-B"]) (map identity (queuedProducts st)) /\
  handleDrop false [] ["SKU-B"] st = (tt, set_queuedProducts [part_B] st, []).
Proof.
  cbv zeta. split.
  - intros H%Permutation_length. discriminate.
  - reflexivity.
Qed.

Lemma drop_follows_rows_witness :
  let st := set_queuedProducts [part_A; part_B; part_C] initial_state in
  let queue' := queuedProducts (exec (reorderByItems ["SKU-C"; "SKU-A"; "SKU-B"]) st) in
  Permutation queue' [part_A; part_B; part_C] /\
  map identity queue' = [Some "SKU-C"; Some "SKU-A"; Some "SKU-B"].
Proof.
  cbv zeta.
  apply (proj2 (proj2 (proj2 (proj2
    (drop_follows_rows (set_queuedProducts [part_A; part_B; part_C] initial_state)
       [] ["SKU-C"; "SKU-A"; "SKU-B"]))))).
  - cbn. constructor; [intros [H | [H | []]]; discriminate|].
    constructor; [intros [H | []]; discriminate|].
    constructor; [intros []|constructor].
  - cbn. apply Permutation_sym.
    apply (perm_trans (l' := [Some "SKU-A"; Some "SKU-C"; Some "SKU-B"])).
    + constructor. apply perm_swap.
    + apply perm_swap.
Defined.

(** * Further properties of the handlers *)

(** ** The selection *)

Lemma Map_set_keys (k : string) (v : Product.t) (m : list (string * Product.t)) :
  Map_keys (Map_set k v m)
  = if existsb (String.eqb k) (Map_keys m) then Map_keys m else Map_keys m ++ [k].
Proof.
  unfold Map_keys. induction m as [|[k' v'] m IH]; [reflexivity|].
  cbn [Map_set map fst existsb]. rewrite (String.eqb_sym k k').
  destruct (String.eqb k' k) eqn:E; cbn [map fst orb].
  - apply String.eqb_eq in E. now subst.
  - rewrite IH. now destruct (existsb _ _).
Qed.

Lemma Map_set_In (k : string) (v : Product.t) (m : list (string * Product.t))
    (kv : string * Product.t) :
  In kv (Map_set k v m) -> kv = (k, v) \/ In kv m.
Proof.
  induction m as [|[k' v'] m IH]; cbn [Map_set].
  - intros [<- | []]. now left.
  - destruct (String.eqb k' k).
    + intros [<- | H]; [now left | right; now right].
    + intros [<- | H]; [right; now left|].
      destruct (IH H); [now left | right; now right].
Qed.

Lemma Map_set_keyed (k : string) (v : Product.t) (m : list (string * Product.t)) :
  identity v = Some k -> selection_keyed m -> selection_keyed (Map_set k v m).
Proof.
  intros Hv [Hk Hm]. split.
  - change (List.NoDup (Map_keys (Map_set k v m))). rewrite Map_set_keys.
    destruct (existsb (String.eqb k) (Map_keys m)) eqn:E; [exact Hk|].
    apply List.NoDup_app.
    + exact Hk.
    + constructor; [intros []|constructor].
    + intros x Hx [<- | []].
      apply not_true_iff_false in E. apply E, existsb_exists.
      exists k. split; [exact Hx | apply String.eqb_refl].
  - rewrite List.Forall_forall in *. intros kv Hkv.
    apply Map_set_In in Hkv as [-> | Hkv]; [exact Hv | now apply Hm].
Qed.

Lemma Map_delete_keyed (k : string) (m : list (string * Product.t)) :
  selection_keyed m -> selection_keyed (Map_delete k m).
Proof.
  intros [Hk Hm]. unfold Map_delete. split.
  - induction m as [|[k' v'] m IH]; [constructor|].
    cbn [List.filter fst]. inversion Hk as [|? ? Hn Hk']; subst.
    inversion Hm; subst.
    destruct (negb (String.eqb k' k)); [|now apply IH].
    cbn [map fst]. constructor; [|now apply IH].
    intros (x & Hx & Hin)%in_map_iff. apply filter_In in Hin as [Hin _].
    apply Hn. rewrite <- Hx. now apply in_map.
  - rewrite List.Forall_forall in *. intros kv Hkv.
    apply filter_In in Hkv as [Hkv _]. now apply Hm.
Qed.

(** What one call of [toggleProduct] does to the state: nothing but the
    selection changes, and nothing is sent. *)
Lemma toggleProduct_run (rows : list Product.t) (partNumber : string)
    (isChecked : bool) (st : State) :
  toggleProduct rows partNumber isChecked st
  = (tt,
     set_selectedProducts
       (fold_left (fun m product =>
          if strict_eq (identity product) (Some partNumber)
          then if isChecked then Map_set partNumber product m
               else Map_delete partNumber m
          else m) rows (selectedProducts st)) st,
     []).
Proof.
  unfold toggleProduct. revert st.
  induction rows as [|p rows IH]; intros st.
  - destruct st; reflexivity.
  - cbn [forEach fold_left]. unfold bind.
    destruct (strict_eq (identity p) (Some partNumber));
      [destruct isChecked|];
      cbv beta iota delta [modify ret]; rewrite IH; destruct st; reflexivity.
Qed.

(** X1. [toggleProduct] keeps the selection keyed by identity: the keys
    stay distinct and every product stays stored under its own
    identity, whatever rows the table holds. *)
Theorem toggleProduct_keeps_keyed (rows : list Product.t) (partNumber : string)
    (isChecked : bool) (st : State) :
  selection_keyed (selectedProducts st) ->
  selection_keyed
    (selectedProducts (exec (toggleProduct rows partNumber isChecked) st)).
Proof.
  intros H. unfold exec. rewrite toggleProduct_run. cbn [fst snd]. fields.
  revert H. generalize (selectedProducts st).
  induction rows as [|p rows IH]; intros m Hm; [exact Hm|].
  cbn [fold_left]. apply IH.
  destruct (strict_eq (identity p) (Some partNumber)) eqn:E; [|exact Hm].
  apply strict_eq_true in E.
  destruct isChecked; [now apply Map_set_keyed | now apply Map_delete_keyed].
Qed.

Lemma toggleProduct_keeps_keyed_witness :
  selection_keyed
    (selectedProducts
       (exec (toggleProduct [part_A; part_B] "SKU-B" true)
          (set_selectedProducts [("SKU-A", part_A)] initial_state))).
Proof.
  apply toggleProduct_keeps_keyed. split.
  - constructor; [intros []|constructor].
  - repeat constructor.
Defined.

(** X2. A call of [toggleProduct] for a part number that no row of the
    table carries changes nothing and sends nothing. *)
Theorem toggleProduct_unknown_part (rows : list Product.t) (partNumber : string)
    (isChecked : bool) (st : State) :
  (forall p, In p rows -> identity p <> Some partNumber) ->
  toggleProduct rows partNumber isChecked st = (tt, st, []).
Proof.
  intros H. rewrite toggleProduct_run.
  assert (fold_left (fun m product =>
            if strict_eq (identity product) (Some partNumber)
            then if isChecked then Map_set partNumber product m
                 else Map_delete partNumber m
            else m) rows (selectedProducts st) = selectedProducts st) as ->.
  { generalize (selectedProducts st). induction rows as [|p rows IH]; intros m;
      [reflexivity|].
    cbn [fold_left].
    assert (strict_eq (identity p) (Some partNumber) = false) as ->
      by (apply strict_eq_false, H; now left).
    apply IH. intros q Hq. apply H. now right. }
  now destruct st.
Qed.

Lemma toggleProduct_unknown_part_witness :
  toggleProduct [part_A; part_B] "SKU-C" true initial_state
  = (tt, initial_state, []).
Proof.
  apply toggleProduct_unknown_part.
  intros p [<- | [<- | []]]; discriminate.
Defined.

Lemma Map_delete_set (k : string) (v : Product.t) (m : list (string * Product.t)) :
  Map_delete k (Map_set k v m) = Map_delete k m.
Proof.
  unfold Map_delete. induction m as [|[k' v'] m IH]; cbn [Map_set List.filter fst].
  - now rewrite String.eqb_refl.
  - destruct (String.eqb k' k) eqn:E; cbn [List.filter fst negb].
    + now rewrite String.eqb_refl.
    + rewrite E. cbn [negb]. now rewrite IH.
Qed.

Lemma Map_delete_idempotent (k : string) (m : list (string * Product.t)) :
  Map_delete k (Map_delete k m) = Map_delete k m.
Proof.
  unfold Map_delete. induction m as [|[k' v'] m IH]; [reflexivity|].
  cbn [List.filter fst]. destruct (negb (String.eqb k' k)) eqn:E; [|exact IH].
  cbn [List.filter fst]. now rewrite E, IH.
Qed.

Lemma Map_delete_absent (k : string) (m : list (string * Product.t)) :
  ~ In k (Map_keys m) -> Map_delete k m = m.
Proof.
  unfold Map_delete, Map_keys. induction m as [|[k' v'] m IH]; intros H;
    [reflexivity|].
  cbn [List.filter fst].
  assert (String.eqb k' k = false) as ->.
  { apply String.eqb_neq. intros ->. apply H. now left. }
  cbn [negb]. rewrite IH; [reflexivity|]. intros Hin. apply H. now right.
Qed.

(** X3. Checking and then unchecking a row of the table leaves the
    selection as it was, less the part number of the row; a selection
    that did not hold the part number is back unchanged. *)
Theorem toggle_on_off (rows : list Product.t) (partNumber : string) (st : State) :
  (exists p, In p rows /\ identity p = Some partNumber) ->
  let st' := exec (toggleProduct rows partNumber true ;;;
                   toggleProduct rows partNumber false) st in
  selectedProducts st' = Map_delete partNumber (selectedProducts st) /\
  (~ In partNumber (Map_keys (selectedProducts st)) ->
   selectedProducts st' = selectedProducts st).
Proof.
  intros (p & Hp & Hid). cbv zeta. unfold exec, bind.
  rewrite !toggleProduct_run. cbn [fst snd]. fields.
  assert (forall m,
    Map_delete partNumber
      (fold_left (fun m product =>
         if strict_eq (identity product) (Some partNumber)
         then Map_set partNumber product m else m) rows m)
    = Map_delete partNumber m) as Hon.
  { clear Hp. induction rows as [|x rows IH]; intros m; [reflexivity|].
    cbn [fold_left]. rewrite IH.
    destruct (strict_eq (identity x) (Some partNumber));
      [apply Map_delete_set | reflexivity]. }
  assert (forall m,
    fold_left (fun m product =>
      if strict_eq (identity product) (Some partNumber)
      then Map_delete partNumber m else m) rows m
    = Map_delete partNumber m) as Hoff.
  { clear Hon. induction rows as [|x rows IH]; [destruct Hp|].
    intros m. cbn [fold_left].
    destruct Hp as [-> | Hp].
    - apply strict_eq_true in Hid. rewrite Hid.
      clear IH Hid. revert m. induction rows as [|y rows IH]; intros m.
      + reflexivity.
      + cbn [fold_left].
        destruct (strict_eq (identity y) (Some partNumber));
          rewrite ?Map_delete_idempotent; apply IH.
    - rewrite (IH Hp).
      destruct (strict_eq (identity x) (Some partNumber));
        [apply Map_delete_idempotent | reflexivity]. }
  rewrite Hoff, Hon. split; [reflexivity|]. apply Map_delete_absent.
Qed.

Lemma toggle_on_off_witness :
  let st := set_selectedProducts [("SKU-A", part_A)] initial_state in
  selectedProducts
    (exec (toggleProduct [part_A; part_B] "SKU-B" true ;;;
           toggleProduct [part_A; part_B] "SKU-B" false) st)
  = selectedProducts st.
Proof.
  cbv zeta.
  apply (proj2 (toggle_on_off [part_A; part_B] "SKU-B"
                  (set_selectedProducts [("SKU-A", part_A)] initial_state)
                  (ex_intro _ part_B (conj (or_intror (or_introl eq_refl)) eq_refl)))).
  intros [H | []]. discriminate.
Defined.

(** ** The queue *)

Lemma removeFromQueue_run (partNumber : string) (st : State) :
  removeFromQueue partNumber st
  = (tt,
     set_queuedProducts
       (List.filter (fun p => negb (strict_eq (identity p) (Some partNumber)))
          (queuedProducts st)) st,
     []).
Proof. reflexivity. Qed.

Lemma filter_not_queued (q : list Product.t) (k : option string) :
  alreadyQueued q k = false ->
  List.filter (fun p => negb (strict_eq (identity p) k)) q = q.
Proof.
  unfold alreadyQueued. induction q as [|x q IH]; intros H; [reflexivity|].
  cbn [existsb] in H. apply orb_false_elim in H as [Hx Hq].
  cbn [List.filter]. rewrite Hx. cbn [negb]. now rewrite IH.
Qed.

(** X4. [removeFromQueue] keeps exactly the queue entries of another
    identity, after which the part number is no longer queued; it changes
    nothing when the part number is not in the queue, and removing twice
    is removing once. *)
Theorem removeFromQueue_removes (partNumber : string) (st : State) :
  let st' := exec (removeFromQueue partNumber) st in
  (forall p, In p (queuedProducts st') <->
             In p (queuedProducts st) /\ identity p <> Some partNumber) /\
  alreadyQueued (queuedProducts st') (Some partNumber) = false /\
  (alreadyQueued (queuedProducts st) (Some partNumber) = false ->
   removeFromQueue partNumber st = (tt, st, [])) /\
  exec (removeFromQueue partNumber) st' = st'.
Proof.
  cbv zeta. unfold exec. rewrite !removeFromQueue_run. cbn [fst snd]. fields.
  split; [|split; [|split]].
  - intros p. rewrite filter_In, negb_true_iff, strict_eq_false. reflexivity.
  - apply not_true_iff_false. intros (p & Hp & E)%existsb_exists.
    apply filter_In in Hp as [_ Hp]. now rewrite E in Hp.
  - intros H. rewrite (filter_not_queued _ _ H). now destruct st.
  - assert (forall q,
      List.filter (fun p => negb (strict_eq (identity p) (Some partNumber)))
        (List.filter (fun p => negb (strict_eq (identity p) (Some partNumber))) q)
      = List.filter (fun p => negb (strict_eq (identity p) (Some partNumber))) q)
      as ->; [|now destruct st].
    induction q as [|x q IH]; [reflexivity|].
    cbn [List.filter].
    destruct (negb (strict_eq (identity x) (Some partNumber))) eqn:E;
      [|exact IH].
    cbn [List.filter]. now rewrite E, IH.
Qed.

Lemma removeFromQueue_removes_witness :
  removeFromQueue "SKU-C" (set_queuedProducts [part_A; part_B] initial_state)
  = (tt, set_queuedProducts [part_A; part_B] initial_state, []).
Proof.
  apply (proj1 (proj2 (proj2
    (removeFromQueue_removes "SKU-C"
       (set_queuedProducts [part_A; part_B] initial_state))))).
  reflexivity.
Defined.

(** [addAll] changes the queue only. *)
Lemma addAll_frame (l : list Product.t) (st : State) (n : nat) :
  exists n' q', addAll l n st = (n', set_queuedProducts q' st, []).
Proof.
  revert st n. induction l as [|p l IH]; intros st n.
  - exists n, (queuedProducts st). now destruct st.
  - cbn [addAll]. unfold bind, addOne at 1. unfold bind, get. cbn [fst snd].
    destruct (negb (alreadyQueued (queuedProducts st) (identity p))).
    + cbv beta iota delta [modify ret].
      destruct (IH (set_queuedProducts
                      (queuedProducts st ++
                       [Product.with_pricingData p (knownPricing st p)]) st)
                   (S n)) as (n' & q' & ->).
      exists n', q'. now destruct st.
    + cbv beta iota delta [ret]. destruct (IH st n) as (n' & q' & ->).
      now exists n', q'.
Qed.

Lemma addSelectedToQueue_frame (st : State) :
  selectedProducts st <> [] ->
  exists q' m,
    addSelectedToQueue st
    = (tt, redrawn (set_selectedProducts [] (set_queuedProducts q' st)), [m]).
Proof.
  intros Hsel. unfold addSelectedToQueue, bind, get. cbn [fst snd].
  destruct (selectedProducts st) as [|kv sel] eqn:E; [congruence|].
  cbn [Map_values map length Nat.eqb].
  destruct (addAll_frame (snd kv :: map snd sel) st 0) as (n' & q' & ->).
  cbv beta iota delta [modify]. exists q'.
  unfold redrawn.
  set (st1 := set_selectedProducts [] (set_queuedProducts q' st)).
  destruct (Nat.ltb 0 (length (currentProducts st1))).
  - pose proof (displayProductsWithPricing_run (currentProducts st1)
      (Some {| page := currentPage st1; totalPagesOf := totalPages st1;
               totalRecordsOf := totalRecords st1 |}) st1) as Hd.
    unfold exec. rewrite Hd. cbn [fst snd].
    destruct (Nat.ltb 0 n'); eexists; reflexivity.
  - destruct (Nat.ltb 0 n'); eexists; reflexivity.
Qed.

Lemma addSelectedToQueue_queue (st : State) :
  selection_keyed (selectedProducts st) ->
  queuedProducts (exec addSelectedToQueue st)
  = queuedProducts st
      ++ map (enriched st)
           (freshOf (queuedProducts st) (Map_values (selectedProducts st))).
Proof.
  intros Hk. pose proof (selection_keyed_NoDup _ Hk) as Hnd.
  unfold addSelectedToQueue, exec, bind, get. cbn [fst snd].
  destruct (Map_values (selectedProducts st)) as [|p l] eqn:Esel.
  - cbn. now rewrite app_nil_r.
  - cbn [length Nat.eqb]. rewrite addAll_run by assumption.
    cbv beta iota delta [modify].
    set (st1 := set_selectedProducts [] (set_queuedProducts _ st)).
    match goal with
    | |- context [(if ?c then ?a else ?b) st1] =>
        assert (exists st2 out,
          (if c then a else b) st1 = (tt, st2, out) /\
          queuedProducts st2 = queuedProducts st1)
          as (st2 & out & -> & Hq)
    end.
    { destruct (Nat.ltb 0 (length (currentProducts st1))).
      - destruct (displayProductsWithPricing_frame (currentProducts st1)
          (Some {| page := currentPage st1; totalPagesOf := totalPages st1;
                   totalRecordsOf := totalRecords st1 |}) st1) as (H1 & _).
        unfold exec in *.
        destruct (displayProductsWithPricing _ _ st1) as [[[] st2] out].
        exists st2, out. auto.
      - exists st1, []. auto. }
    match goal with
    | |- context [(if ?c then ?a else ?b) st2] =>
        assert (exists m, (if c then a else b) st2 = (tt, st2, [m]))
          as (m & ->) by (destruct c; eexists; reflexivity)
    end.
    cbn [fst snd]. rewrite Hq. reflexivity.
Qed.

(** X5. Adding one selected product that is not queued and then removing
    it by its part number gives back the queue as it was. *)
Theorem add_then_remove (st : State) (k : string) (p : Product.t) :
  selectedProducts st = [(k, p)] ->
  identity p = Some k ->
  alreadyQueued (queuedProducts st) (Some k) = false ->
  queuedProducts (exec (addSelectedToQueue ;;; removeFromQueue k) st)
  = queuedProducts st.
Proof.
  intros Hsel Hid Hq.
  assert (Hk : selection_keyed (selectedProducts st)).
  { rewrite Hsel. split.
    - constructor; [intros []|constructor].
    - repeat constructor. exact Hid. }
  pose proof (addSelectedToQueue_queue st Hk) as Ha.
  unfold exec in *. unfold bind.
  destruct (addSelectedToQueue st) as [[[] st1] out1]. cbn [fst snd] in Ha.
  rewrite removeFromQueue_run. cbn [fst snd]. fields. rewrite Ha, Hsel.
  unfold freshOf. cbn [Map_values map snd List.filter]. rewrite Hid, Hq.
  cbn [negb map]. rewrite List.filter_app. cbn [List.filter].
  rewrite identity_enriched, Hid.
  assert (strict_eq (Some k) (Some k) = true) as ->
    by (cbn [strict_eq]; apply String.eqb_refl).
  cbn [negb]. rewrite app_nil_r. now apply filter_not_queued.
Qed.

Lemma add_then_remove_witness :
  let st :=
    set_selectedProducts [("SKU-B", part_B)]
      (set_queuedProducts [part_A] initial_state) in
  queuedProducts (exec (addSelectedToQueue ;;; removeFromQueue "SKU-B") st)
  = queuedProducts st.
Proof.
  cbv zeta. apply (add_then_remove _ "SKU-B" part_B); reflexivity.
Defined.

Lemma NoDup_map_filter {A B} (f : A -> B) (h : A -> bool) (l : list A) :
  List.NoDup (map f l) -> List.NoDup (map f (List.filter h l)).
Proof.
  induction l as [|x l IH]; intros H; [constructor|].
  inversion H as [|? ? Hx Hl]; subst. cbn [List.filter].
  destruct (h x); [|now apply IH].
  cbn [map]. constructor; [|now apply IH].
  intros (y & Hy & Hin)%in_map_iff. apply filter_In in Hin as [Hin _].
  apply Hx. rewrite <- Hy. now apply in_map.
Qed.

Lemma rows_unique (queue : list Product.t) (items : list string) :
  List.NoDup items ->
  List.NoDup (map identity (flat_map (rowEntry queue) items)).
Proof.
  induction items as [|s items IH]; intros H; [constructor|].
  inversion H as [|? ? Hs Hi]; subst. cbn [flat_map]. rewrite map_app.
  apply List.NoDup_app.
  - unfold rowEntry. destruct (find _ queue); repeat constructor. intros [].
  - now apply IH.
  - intros k (p & <- & Hp)%in_map_iff (p' & E & Hp')%in_map_iff.
    apply rowEntry_In in Hp as [_ Hp].
    apply in_flat_map in Hp' as (s' & Hs' & Hp').
    apply rowEntry_In in Hp' as [_ Hp']. congruence.
Qed.

Lemma block_of_covered (g : Product.t -> string) (M : list string)
    (q : list Product.t) (m : string) :
  In m M ->
  List.filter (fun p => String.eqb (g p) m)
    (List.filter (fun p => existsb (String.eqb (g p)) M) q)
  = List.filter (fun p => String.eqb (g p) m) q.
Proof.
  intros Hm. induction q as [|x q IH]; [reflexivity|].
  cbn [List.filter]. destruct (String.eqb (g x) m) eqn:E.
  - assert (existsb (String.eqb (g x)) M = true) as ->.
    { apply existsb_exists. now exists m. }
    cbn [List.filter]. rewrite E. now f_equal.
  - destruct (existsb (String.eqb (g x)) M); cbn [List.filter];
      rewrite ?E; exact IH.
Qed.

Lemma blocks_unique (g : Product.t -> string) (M : list string)
    (q : list Product.t) :
  List.NoDup M -> List.NoDup (map identity q) ->
  List.NoDup
    (map identity
       (flat_map (fun m => List.filter (fun p => String.eqb (g p) m) q) M)).
Proof.
  intros HM Hq.
  set (q' := List.filter (fun p => existsb (String.eqb (g p)) M) q).
  assert (Hperm : Permutation
            (flat_map (fun m => List.filter (fun p => String.eqb (g p) m) q') M) q').
  { apply blocks_perm; [exact HM|].
    intros p Hp. unfold q' in Hp. apply filter_In in Hp as [_ Hp].
    apply existsb_exists in Hp as (m & Hm & E). apply String.eqb_eq in E.
    now subst. }
  assert (Heq : flat_map (fun m => List.filter (fun p => String.eqb (g p) m) q') M
                = flat_map (fun m => List.filter (fun p => String.eqb (g p) m) q) M).
  { apply flat_map_ext_In. intros m Hm. now apply block_of_covered. }
  rewrite <- Heq.
  apply (Permutation_NoDup (Permutation_map identity (Permutation_sym Hperm))).
  now apply NoDup_map_filter.
Qed.

Lemma identities_enriched (st : State) (l : list Product.t) :
  map identity (map (enriched st) l) = map identity l.
Proof. rewrite map_map. apply map_ext. intros p. reflexivity. Qed.

(** X6. The queue keeps each identity once: if it does, it still does
    after adding a selection keyed by identity, after removing a part
    number, after a drop over rows that are pairwise distinct and after
    a drop over group headers that are pairwise distinct. *)
Theorem queue_stays_unique (st : State) :
  queue_unique (queuedProducts st) ->
  (selection_keyed (selectedProducts st) ->
   queue_unique (queuedProducts (exec addSelectedToQueue st))) /\
  (forall partNumber,
     queue_unique (queuedProducts (exec (removeFromQueue partNumber) st))) /\
  (forall items,
     List.NoDup items ->
     queue_unique (queuedProducts (exec (reorderByItems items) st))) /\
  (forall mfrOrder,
     List.NoDup mfrOrder ->
     queue_unique (queuedProducts (exec (reorderByGroups mfrOrder) st))).
Proof.
  unfold queue_unique. intros Hq. split; [|split; [|split]].
  - intros Hk. rewrite addSelectedToQueue_queue by assumption.
    rewrite map_app, identities_enriched.
    apply List.NoDup_app.
    + exact Hq.
    + apply NoDup_map_filter, selection_keyed_NoDup, Hk.
    + intros k Hk1 (p & <- & Hp)%in_map_iff. unfold freshOf in Hp.
      apply filter_In in Hp as [_ Hp]. apply negb_true_iff in Hp.
      apply not_true_iff_false in Hp. apply Hp. now apply alreadyQueued_In.
  - intros pn. unfold exec. rewrite removeFromQueue_run. cbn [fst snd]. fields.
    now apply NoDup_map_filter.
  - intros items Hi. unfold exec. rewrite reorderByItems_run. cbn [fst snd].
    fields. now apply rows_unique.
  - intros M HM. unfold exec. rewrite reorderByGroups_run. cbn [fst snd].
    fields. now apply (blocks_unique (groupOf st)).
Qed.

Lemma queue_stays_unique_witness :
  let st :=
    set_selectedProducts [("SKU-A", part_A); ("SKU-B", part_B)]
      (set_queuedProducts [part_A; part_C] initial_state) in
  queue_unique (queuedProducts (exec addSelectedToQueue st)) /\
  queue_unique (queuedProducts (exec (reorderByItems ["SKU-C"; "SKU-A"]) st)) /\
  queue_unique (queuedProducts (exec (reorderByGroups ["m1"]) st)).
Proof.
  cbv zeta.
  assert (Hq : queue_unique
                 (queuedProducts
                    (set_selectedProducts [("SKU-A", part_A); ("SKU-B", part_B)]
                       (set_queuedProducts [part_A; part_C] initial_state)))).
  { constructor; [intros [H | []]; discriminate|].
    constructor; [intros []|constructor]. }
  destruct (queue_stays_unique _ Hq) as (H1 & _ & H3 & H4).
  split; [|split].
  - apply H1. split.
    + constructor; [intros [H | []]; discriminate|].
      constructor; [intros []|constructor].
    + repeat constructor.
  - apply H3. constructor; [intros [H | []]; discriminate|].
    constructor; [intros []|constructor].
  - apply H4. constructor; [intros []|constructor].
Defined.

Lemma freshOf_all_queued (q l : list Product.t) :
  (forall p, In p l -> alreadyQueued q (identity p) = true) -> freshOf q l = [].
Proof.
  unfold freshOf. induction l as [|p l IH]; intros H; [reflexivity|].
  cbn [List.filter]. rewrite H by now left. cbn [negb].
  apply IH. intros x Hx. apply H. now right.
Qed.

(** X7. Committing the same selection a second time adds nothing: the
    queue stays as the first commit left it and the status says the
    products are already queued. *)
Theorem recommit_adds_nothing (st : State) :
  selection_keyed (selectedProducts st) ->
  selectedProducts st <> [] ->
  let st1 := exec addSelectedToQueue st in
  let st2 := set_selectedProducts (selectedProducts st) st1 in
  queuedProducts (exec addSelectedToQueue st2) = queuedProducts st1 /\
  sent addSelectedToQueue st2 = [ShowStatus MsgAlreadyQueued info].
Proof.
  intros Hk Hne. cbv zeta.
  set (st1 := exec addSelectedToQueue st).
  set (st2 := set_selectedProducts (selectedProducts st) st1).
  assert (Hk2 : selection_keyed (selectedProducts st2)) by exact Hk.
  assert (Hfresh : freshOf (queuedProducts st2) (Map_values (selectedProducts st2)) = []).
  { unfold st2. fields. unfold st1. rewrite addSelectedToQueue_queue by assumption.
    apply freshOf_all_queued. intros p Hp.
    rewrite alreadyQueued_app.
    destruct (alreadyQueued (queuedProducts st) (identity p)) eqn:E;
      [reflexivity|].
    cbn [orb]. apply alreadyQueued_In. rewrite identities_enriched.
    apply in_map. unfold freshOf. apply filter_In. split; [exact Hp|].
    now rewrite E. }
  split.
  - rewrite addSelectedToQueue_queue by assumption.
    rewrite Hfresh. cbn [map]. rewrite app_nil_r. reflexivity.
  - pose proof (selection_keyed_NoDup _ Hk2) as Hnd.
    unfold addSelectedToQueue, sent, bind, get. cbn [fst snd].
    destruct (Map_values (selectedProducts st2)) as [|p l] eqn:Esel.
    { exfalso. apply Hne. unfold st2 in Esel. cbn in Esel.
      destruct (selectedProducts st); [reflexivity | discriminate]. }
    cbn [length Nat.eqb]. rewrite addAll_run by assumption. rewrite Hfresh.
    cbv beta iota delta [modify]. cbn [length Nat.add map].
    set (st3 := set_selectedProducts [] (set_queuedProducts _ st2)).
    match goal with
    | |- context [(if ?c then ?a else ?b) st3] =>
        assert (exists st4 out,
          (if c then a else b) st3 = (tt, st4, out) /\ out = [])
          as (st4 & out & -> & ->)
    end.
    { destruct (Nat.ltb 0 (length (currentProducts st3))).
      - destruct (displayProductsWithPricing_frame (currentProducts st3)
          (Some {| page := currentPage st3; totalPagesOf := totalPages st3;
                   totalRecordsOf := totalRecords st3 |}) st3) as (_ & _ & H3).
        unfold sent in H3.
        destruct (displayProductsWithPricing _ _ st3) as [[[] st4] out].
        exists st4, out. auto.
      - exists st3, []. auto. }
    reflexivity.
Qed.

Lemma recommit_adds_nothing_witness :
  let st :=
    set_selectedProducts [("SKU-A", part_A); ("SKU-B", part_B)]
      (set_queuedProducts [part_C] initial_state) in
  let st1 := exec addSelectedToQueue st in
  let st2 := set_selectedProducts (selectedProducts st) st1 in
  queuedProducts (exec addSelectedToQueue st2) = queuedProducts st1 /\
  sent addSelectedToQueue st2 = [ShowStatus MsgAlreadyQueued info].
Proof.
  apply recommit_adds_nothing.
  - split.
    + constructor; [intros [H | []]; discriminate|].
      constructor; [intros []|constructor].
    + repeat constructor.
  - discriminate.
Defined.

(** ** The page on display *)

Lemma lex_compare_eq (a b : list ckey) : lex_compare a b = Eq -> a = b.
Proof.
  revert b. induction a as [|x a IH]; intros [|y b]; cbn [lex_compare];
    try discriminate; [reflexivity|].
  destruct (key_compare x y) eqn:E; try discriminate.
  apply key_compare_eq in E. intros H%IH. congruence.
Qed.

Lemma same_part_not_after (a x y : Product.t) :
  same_part a x = true -> same_part a y = true -> compareByPartNumber x y <> Gt.
Proof.
  unfold same_part, compareByPartNumber, localeCompare.
  destruct (lex_compare _ (collation_keys None (toLowerCase (or_str (Product.vendorPartNumber a) ""))))
    eqn:Ex; try discriminate.
  intros _.
  destruct (lex_compare (collation_keys None (toLowerCase (or_str (Product.vendorPartNumber y) ""))) _)
    eqn:Ey; try discriminate.
  intros _. apply lex_compare_eq in Ex, Ey. rewrite Ex, Ey, lex_compare_refl.
  discriminate.
Qed.

Lemma sort_insert_filter (P : Product.t -> bool) (x : Product.t)
    (l : list Product.t) :
  (P x = true -> forall y, P y = true -> compareByPartNumber x y <> Gt) ->
  List.filter P (sort_insert compareByPartNumber x l)
  = List.filter P (x :: l).
Proof.
  intros H. induction l as [|y r IH]; [reflexivity|].
  cbn [sort_insert]. destruct (compareByPartNumber x y) eqn:E; try reflexivity.
  cbn [List.filter] in *. rewrite IH.
  destruct (P x) eqn:Px; [|reflexivity].
  destruct (P y) eqn:Py; [|reflexivity].
  now destruct (H eq_refl y Py).
Qed.

(** X9. The sort of the product table is stable: among the products of a
    response whose part numbers collate alike, such as two spellings
    that differ by case only, the table keeps the order of the
    response. *)
Theorem displayed_order_is_stable (st : State) (products : list Product.t)
    (pagination : option Pagination) (a : Product.t) :
  List.filter (same_part a)
    (currentProducts (exec (displayProductsWithPricing products pagination) st))
  = List.filter (same_part a) products.
Proof.
  unfold exec. rewrite displayProductsWithPricing_run. cbn [fst snd].
  rewrite (proj1 (renderPagination_frame _ _)). fields.
  induction products as [|x l IH]; [reflexivity|].
  cbn [Array_sort]. rewrite sort_insert_filter.
  - cbn [List.filter]. now rewrite IH.
  - intros Hx y Hy. now apply (same_part_not_after a).
Qed.

Lemma settled_state (page : Z) (products : list Product.t)
    (pagination : option Pagination) (st : State) :
  nonempty (manufacturer st) = true -> products <> [] ->
  exec (loadProducts page ;;; loadProducts_settle (PageOk products pagination)) st
  = set_paginationView
      (paginationView (exec (renderPagination pagination) st))
      (set_pricingData
         (fold_left cachePricing (Array_sort compareByPartNumber products) ∅)
         (set_currentProducts (Array_sort compareByPartNumber products)
            (recordedTotals products pagination (set_currentPage page st)))).
Proof.
  intros Hm Hp. unfold exec, bind.
  rewrite loadProducts_run, Hm, loadProducts_settle_ok by assumption.
  cbn [fst snd]. unfold exec. rewrite renderPagination_run. cbn [fst snd].
  f_equal. apply renderPagination_view.
Qed.

Lemma redrawn_sorted (st : State) :
  StronglySorted part_le (currentProducts st) ->
  currentProducts st <> [] ->
  redrawn st
  = set_paginationView
      (paginationView
         (exec (renderPagination
                  (Some {| page := currentPage st; totalPagesOf := totalPages st;
                           totalRecordsOf := totalRecords st |})) st))
      (set_pricingData (fold_left cachePricing (currentProducts st) ∅) st).
Proof.
  intros Hs Hne. unfold redrawn.
  destruct (currentProducts st) as [|x l] eqn:E; [congruence|].
  cbn [length Nat.ltb Nat.leb]. unfold exec.
  rewrite displayProductsWithPricing_run. cbn [fst snd].
  rewrite (Array_sort_sorted_id compareByPartNumber _ Hs).
  unfold exec. rewrite renderPagination_run. cbn [fst snd].
  rewrite <- E.
  rewrite (renderPagination_view _ _ st).
  destruct st; cbn in *; reflexivity.
Qed.



(** ** Products without a part number *)

Lemma toggle_fold_In (rows : list Product.t) (partNumber : string)
    (isChecked : bool) (m : list (string * Product.t)) (kv : string * Product.t) :
  In kv (fold_left (fun m product =>
           if strict_eq (identity product) (Some partNumber)
           then if isChecked then Map_set partNumber product m
                else Map_delete partNumber m
           else m) rows m) ->
  In kv m \/ identity (snd kv) = Some partNumber.
Proof.
  revert m. induction rows as [|x rows IH]; intros m H; [now left|].
  cbn [fold_left] in H. apply IH in H as [H | H]; [|now right].
  destruct (strict_eq (identity x) (Some partNumber)) eqn:E; [|now left].
  apply strict_eq_true in E. destruct isChecked.
  - apply Map_set_In in H as [-> | H]; [now right | now left].
  - unfold Map_delete in H. apply filter_In in H as [H _]. now left.
Qed.

(** X10. A product that has neither an ingram nor a vendor part number
    cannot be handled by part number: no call of [toggleProduct] selects
    it, no call of [removeFromQueue] takes it out of the queue, and a
    drop over the queue rows never keeps it. *)
Theorem product_without_part_number (st : State) (p : Product.t) :
  identity p = None ->
  (forall rows partNumber isChecked k,
     In (k, p) (selectedProducts (exec (toggleProduct rows partNumber isChecked) st)) ->
     In (k, p) (selectedProducts st)) /\
  (forall partNumber,
     In p (queuedProducts st) ->
     In p (queuedProducts (exec (removeFromQueue partNumber) st))) /\
  (forall items, ~ In p (queuedProducts (exec (reorderByItems items) st))).
Proof.
  intros Hid. split; [|split].
  - intros rows pn b k H. unfold exec in H. rewrite toggleProduct_run in H.
    cbn [fst snd] in H. fields.
    cbn [selectedProducts set_selectedProducts] in H.
    apply toggle_fold_In in H as [H | H]; [exact H|].
    cbn [snd] in H. congruence.
  - intros pn Hp. unfold exec. rewrite removeFromQueue_run. cbn [fst snd]. fields.
    apply filter_In. split; [exact Hp|]. now rewrite Hid.
  - intros items H. unfold exec in H. rewrite reorderByItems_run in H.
    cbn [fst snd] in H. cbn [queuedProducts set_queuedProducts] in H.
    apply in_flat_map in H as (s & _ & H). apply rowEntry_In in H as [_ H].
    congruence.
Qed.

Lemma product_without_part_number_witness :
  let nameless := product None None (Some "Acme") None in
  let st := set_queuedProducts [nameless; part_A] initial_state in
  In nameless (queuedProducts (exec (removeFromQueue "undefined") st)) /\
  ~ In nameless (queuedProducts (exec (reorderByItems ["undefined"; "SKU-A"]) st)).
Proof.
  cbv zeta.
  destruct (product_without_part_number
              (set_queuedProducts [product None None (Some "Acme") None; part_A]
                 initial_state)
              (product None None (Some "Acme") None) eq_refl) as (_ & H2 & H3).
  split; [apply H2; now left | apply H3].
Defined.

(** ** The price sent to the host *)

(** X11. The MSRP of a payload entry is never zero: it is the retail
    price of the pricing record when that is a number other than zero,
    else the retail price of the product when that is one, and null in
    every other case, so a price of zero is sent as null. *)
Theorem payload_price_is_never_zero (st : State) (p : Product.t) :
  let recorded :=
    pricing_retailPrice
      (Some (match knownPricing st p with
             | Some pd => pd
             | None => PricingData.empty
             end)) in
  match MSRP (formatProduct st p) with
  | Some q =>
      Qnum q <> 0%Z /\
      (recorded = Some q \/
       (truthy_num recorded = false /\ Product.retailPrice p = Some q))
  | None =>
      truthy_num recorded = false /\ truthy_num (Product.retailPrice p) = false
  end.
Proof.
  cbv zeta. unfold formatProduct. cbn [MSRP].
  set (a := pricing_retailPrice _). set (b := Product.retailPrice p).
  unfold or_null, or_num.
  destruct (truthy_num a) eqn:Ea; rewrite ?Ea.
  - destruct a as [q|]; [|discriminate]. split; [|now left].
    cbn [truthy_num] in Ea. apply negb_true_iff, Z.eqb_neq in Ea. exact Ea.
  - destruct (truthy_num b) eqn:Eb; [|now split].
    destruct b as [q|]; [|discriminate]. split; [|right; now split].
    cbn [truthy_num] in Eb. apply negb_true_iff, Z.eqb_neq in Eb. exact Eb.
Qed.

(** ** Filter loading at the edges *)

(** X12. For a filter that is neither the category nor the subcategory
    filter, [loadFilterOptions] never sends a request, returns without
    anything pending, leaves the cached tuples and every filter value as
    they were, and does not leave the filter marked as loading. *)
Theorem loadFilterOptions_other_filter (filterType : string) (st : State) :
  filterType <> "category" -> filterType <> "subcategory" ->
  let st' := exec (loadFilterOptions filterType) st in
  sent (loadFilterOptions filterType) st = [] /\
  value (loadFilterOptions filterType) st = None /\
  filterParams st' = filterParams st /\
  currentParams st' = currentParams st /\
  (loadingFilters st !! filterType <> Some true ->
   loadingFilters st' !! filterType <> Some true).
Proof.
  intros H1 H2. cbv zeta. unfold loadFilterOptions, exec, sent, value, bind, get.
  cbn [fst snd].
  destruct (bool_decide (loadingFilters st !! filterType = Some true)) eqn:E1.
  { cbn [ret fst snd]. repeat split; auto. }
  destruct (bool_decide (filterParams st !! filterType = Some (currentParams st))).
  { repeat split; auto. }
  apply String.eqb_neq in H1, H2. rewrite H1, H2.
  cbv beta iota delta [modify ret]. cbn [fst snd app]. fields.
  repeat split. intros _. rewrite lookup_insert_eq. discriminate.
Qed.

Lemma loadFilterOptions_other_filter_witness :
  sent (loadFilterOptions "skuType") acme_state = [] /\
  value (loadFilterOptions "skuType") acme_state = None.
Proof.
  destruct (loadFilterOptions_other_filter "skuType" acme_state)
    as (H1 & H2 & _); [discriminate | discriminate |].
  split; [exact H1 | exact H2].
Defined.

Lemma append_inj_r (a b c : string) : a +:+ b = a +:+ c -> b = c.
Proof.
  induction a as [|x a IH]; cbn [String.append]; [auto|].
  intros H. injection H as H. now apply IH.
Qed.

(** X13. A load that settles after the filters have changed does not
    pass for a load of the new filters: when the type filter changes
    while the categories are loading, the load stores the tuple it
    started with, which differs from the current one, and the next call
    of [loadFilterOptions] sends a request again. *)
Theorem stale_load_is_reloaded (st : State) (v : string) (items : list string)
    (p : PendingFilter) :
  value (loadFilterOptions "category") st = Some p ->
  v <> skuType st ->
  let st1 := exec (loadFilterOptions "category") st in
  let st2 := exec (onFilterChange f_skuType v FilterFailed) st1 in
  let st3 := exec (loadFilterOptions_settle p (FilterOk items)) st2 in
  filterParams st3 !! "category" = Some (currentParams st) /\
  currentParams st3 <> currentParams st /\
  exists u, sent (loadFilterOptions "category") st3 = [Fetch u].
Proof.
  intros Hp Hv. cbv zeta.
  assert (Hfire :
    loadingFilters st !! "category" <> Some true /\
    filterParams st !! "category" <> Some (currentParams st)).
  { unfold value, loadFilterOptions, bind, get in Hp. cbn [fst snd] in Hp.
    destruct (bool_decide (loadingFilters st !! "category" = Some true)) eqn:E1;
      [discriminate|].
    destruct (bool_decide (filterParams st !! "category" = Some (currentParams st)))
      eqn:E2; [discriminate|].
    apply bool_decide_eq_false in E1, E2. now split. }
  destruct Hfire as [Hl Hc].
  destruct (loadFilterOptions_fires "category" st Hl Hc (or_introl eq_refl))
    as [u Hu].
  assert (E1 : exec (loadFilterOptions "category") st
               = set_loadingFilters (<["category" := true]> (loadingFilters st)) st)
    by (unfold exec; now rewrite Hu).
  rewrite E1. unfold value in Hp. rewrite Hu in Hp. cbn [fst snd] in Hp.
  injection Hp as <-.
  unfold onFilterChange. mrun. unfold loadFilterOptions_settle. mrun.
  cbn [pf_filterType pf_currentParams].
  split; [|split].
  - apply lookup_insert_eq.
  - unfold currentParams. fields. intros E.
    do 6 apply append_inj_r in E. contradiction.
  - edestruct (loadFilterOptions_fires "category") as [u' Hu'];
      [| | left; reflexivity | unfold sent; rewrite Hu'; eauto].
    + fields. rewrite lookup_insert_eq. discriminate.
    + fields. rewrite lookup_insert_eq. unfold currentParams. fields.
      intros E. injection E as E.
      do 6 apply append_inj_r in E. congruence.
Qed.

Lemma stale_load_is_reloaded_witness :
  let p := {| pf_filterType := "category"; pf_currentParams := "Acme|||" |} in
  let st1 := exec (loadFilterOptions "category") acme_fresh in
  let st2 := exec (onFilterChange f_skuType "Physical" FilterFailed) st1 in
  let st3 := exec (loadFilterOptions_settle p (FilterOk ["Laptops"])) st2 in
  filterParams st3 !! "category" = Some (currentParams acme_fresh) /\
  currentParams st3 <> currentParams acme_fresh /\
  exists u, sent (loadFilterOptions "category") st3 = [Fetch u].
Proof.
  apply (stale_load_is_reloaded acme_fresh "Physical" ["Laptops"]
           {| pf_filterType := "category"; pf_currentParams := "Acme|||" |}).
  - vm_compute. reflexivity.
  - discriminate.
Defined.

(** ** The queue list and the drop *)

Lemma pushToGroup_keys (mfr : string) (p : Product.t)
    (groups : list (string * list Product.t)) :
  map fst (pushToGroup mfr p groups)
  = if existsb (String.eqb mfr) (map fst groups) then map fst groups
    else map fst groups ++ [mfr].
Proof.
  induction groups as [|[k l] r IH]; [reflexivity|].
  cbn [pushToGroup map fst existsb]. rewrite (String.eqb_sym mfr k).
  destruct (String.eqb k mfr); cbn [map fst orb]; [reflexivity|].
  rewrite IH. now destruct (existsb _ _).
Qed.

Lemma pushToGroup_In (mfr : string) (p : Product.t)
    (groups : list (string * list Product.t)) (k : string) (l : list Product.t) :
  List.NoDup (map fst groups) ->
  In (k, l) (pushToGroup mfr p groups) ->
  (k <> mfr /\ In (k, l) groups) \/
  (k = mfr /\ exists l0, l = l0 ++ [p] /\
     (In (k, l0) groups \/ (l0 = [] /\ ~ In mfr (map fst groups)))).
Proof.
  induction groups as [|[k' l'] r IH]; intros Hnd; cbn [pushToGroup].
  - intros [E | []]. injection E as <- <-. right. split; [reflexivity|].
    exists []. split; [reflexivity|]. right. split; [reflexivity | intros []].
  - inversion Hnd as [|? ? Hk' Hr]; subst.
    destruct (String.eqb k' mfr) eqn:E.
    + apply String.eqb_eq in E. subst k'. intros [E | H].
      * injection E as <- <-. right. split; [reflexivity|].
        exists l'. split; [reflexivity|]. left. now left.
      * left. split; [|now right].
        intros ->. apply Hk'. change mfr with (fst (mfr, l)). now apply in_map.
    + apply String.eqb_neq in E. intros [E' | H].
      * injection E' as <- <-. left. split; [exact E | now left].
      * destruct (IH Hr H) as [[Hne Hin] | [-> (l0 & -> & [Hin | [-> Hn]])]].
        -- left. split; [exact Hne | now right].
        -- right. split; [reflexivity|]. exists l0. split; [reflexivity|].
           left. now right.
        -- right. split; [reflexivity|]. exists []. split; [reflexivity|].
           right. split; [reflexivity|]. intros [H' | H']; [cbn [fst] in H'; congruence | auto].
Qed.

Lemma filter_none {A} (f : A -> bool) (l : list A) :
  (forall x, In x l -> f x = false) -> List.filter f l = [].
Proof.
  induction l as [|x l IH]; intros H; [reflexivity|].
  cbn [List.filter]. rewrite H by now left. apply IH.
  intros y Hy. apply H. now right.
Qed.

Lemma groups_of_push (g : Product.t -> string) (seen : list Product.t)
    (groups : list (string * list Product.t)) (p : Product.t) :
  groups_of g seen groups ->
  groups_of g (seen ++ [p]) (pushToGroup (g p) p groups).
Proof.
  intros (Hnd & Hl & Hcov & Hkey). split; [|split; [|split]].
  - rewrite pushToGroup_keys.
    destruct (existsb (String.eqb (g p)) (map fst groups)) eqn:E; [exact Hnd|].
    apply List.NoDup_app; [exact Hnd | |].
    + constructor; [intros []|constructor].
    + intros x Hx [<- | []]. apply not_true_iff_false in E. apply E.
      apply existsb_exists. exists (g p). split; [exact Hx|apply String.eqb_refl].
  - intros k l Hin. rewrite List.filter_app. cbn [List.filter].
    apply pushToGroup_In in Hin as
      [[Hne Hin] | [-> (l0 & -> & [Hin | [-> Hn]])]]; [| | |exact Hnd].
    + assert (String.eqb (g p) k = false) as ->
        by (apply String.eqb_neq; congruence).
      rewrite app_nil_r. now apply Hl.
    + rewrite String.eqb_refl. f_equal. now apply Hl.
    + rewrite String.eqb_refl. f_equal. symmetry.
      apply filter_none. intros x Hx. apply String.eqb_neq. intros E.
      apply Hn. rewrite <- E. now apply Hcov.
  - intros x Hx. rewrite pushToGroup_keys. apply in_app_or in Hx as [Hx | [<- | []]].
    + destruct (existsb _ _); [|apply in_or_app; left]; now apply Hcov.
    + destruct (existsb (String.eqb (g p)) (map fst groups)) eqn:E.
      * apply existsb_exists in E as (k & Hk & E). apply String.eqb_eq in E.
        now subst.
      * apply in_or_app. right. now left.
  - intros k Hk. rewrite pushToGroup_keys in Hk.
    destruct (existsb (String.eqb (g p)) (map fst groups)).
    + destruct (Hkey k Hk) as (y & Hy & Ey). exists y. split; [|exact Ey].
      apply in_or_app. now left.
    + apply in_app_or in Hk as [Hk | [<- | []]].
      * destruct (Hkey k Hk) as (y & Hy & Ey). exists y. split; [|exact Ey].
        apply in_or_app. now left.
      * exists p. split; [|reflexivity]. apply in_or_app. right. now left.
Qed.

Lemma groups_of_fold (g : Product.t -> string) (l seen : list Product.t)
    (groups : list (string * list Product.t)) :
  groups_of g seen groups ->
  groups_of g (seen ++ l)
    (fold_left (fun groups product => pushToGroup (g product) product groups)
       l groups).
Proof.
  revert seen groups. induction l as [|p l IH]; intros seen groups H.
  - now rewrite app_nil_r.
  - cbn [fold_left]. replace (seen ++ p :: l) with ((seen ++ [p]) ++ l)
      by now rewrite <- app_assoc.
    apply IH. now apply groups_of_push.
Qed.

Lemma groupAt_In (groups : list (string * list Product.t)) (k : string) :
  In k (map fst groups) -> In (k, groupAt groups k) groups.
Proof.
  intros (kv & <- & Hkv)%in_map_iff. unfold groupAt.
  destruct (find _ groups) as [kv'|] eqn:E.
  - apply find_some in E as [Hin Hk]. apply String.eqb_eq in Hk.
    rewrite <- Hk. now destruct kv'.
  - apply (find_none _ _ E) in Hkv. now rewrite String.eqb_refl in Hkv.
Qed.

Lemma headersOf_groups (h : string -> list QueueRow) (keys : list string) :
  (forall k, headersOf (h k) = []) ->
  headersOf (flat_map (fun mfr => GroupHeader mfr :: h mfr) keys) = keys.
Proof.
  intros H. induction keys as [|k keys IH]; [reflexivity|].
  cbn [flat_map]. unfold headersOf in *. cbn [flat_map app].
  rewrite flat_map_app, H, IH. reflexivity.
Qed.

Lemma headersOf_items (l : list Product.t) :
  headersOf (map createQueueItemElement l) = [].
Proof. induction l as [|x l IH]; [reflexivity | exact IH]. Qed.

Lemma itemsOf_items (l : list Product.t) :
  itemsOf (map createQueueItemElement l) = map (fun p => prop_key (identity p)) l.
Proof.
  induction l as [|x l IH]; [reflexivity|].
  unfold itemsOf in *. cbn [map flat_map app]. now rewrite IH.
Qed.

Lemma itemsOf_groups (h : string -> list Product.t) (keys : list string) :
  itemsOf (flat_map (fun mfr => GroupHeader mfr :: map createQueueItemElement (h mfr))
             keys)
  = map (fun p => prop_key (identity p)) (flat_map h keys).
Proof.
  induction keys as [|k keys IH]; [reflexivity|].
  cbn [flat_map]. rewrite map_app, <- IH, <- itemsOf_items.
  unfold itemsOf. cbn [flat_map app]. now rewrite flat_map_app.
Qed.

Lemma find_own_identity (q : list Product.t) (p : Product.t) :
  List.NoDup (map identity q) -> In p q ->
  find (fun x => strict_eq (identity x) (identity p)) q = Some p.
Proof.
  induction q as [|x q IH]; intros Hnd Hp; [destruct Hp|].
  inversion Hnd as [|? ? Hx Hq]; subst. cbn [find].
  destruct Hp as [-> | Hp].
  - assert (strict_eq (identity p) (identity p) = true) as ->
      by now apply strict_eq_true.
    reflexivity.
  - assert (strict_eq (identity x) (identity p) = false) as ->.
    { apply strict_eq_false. intros E. apply Hx. rewrite E. now apply in_map. }
    now apply IH.
Qed.

Lemma rows_read_back (q l : list Product.t) :
  List.NoDup (map identity q) ->
  (forall p, In p l -> In p q /\ identity p <> None) ->
  flat_map (rowEntry q) (map (fun p => prop_key (identity p)) l) = l.
Proof.
  intros Hnd. induction l as [|p l IH]; intros Hsub; [reflexivity|].
  cbn [map flat_map]. unfold rowEntry at 1.
  destruct (Hsub p (or_introl eq_refl)) as [Hp Hid].
  assert (Some (prop_key (identity p)) = identity p) as ->
    by now destruct (identity p).
  rewrite find_own_identity by assumption.
  cbn [app]. f_equal. apply IH. intros x Hx. apply Hsub. now right.
Qed.



(** ** The grouped queue list *)

Lemma ascii_compare_lt_le (a b c : ascii) :
  Ascii.compare a b = Lt -> Ascii.compare b c <> Gt -> Ascii.compare a c = Lt.
Proof.
  unfold Ascii.compare. rewrite !N.compare_lt_iff, N.compare_le_iff.
  apply N.lt_le_trans.
Qed.

Lemma string_compare_trans (a b c : string) :
  cmp_le String.compare a b -> cmp_le String.compare b c ->
  cmp_le String.compare a c.
Proof.
  unfold cmp_le. revert b c.
  induction a as [|x a IH]; intros [|y b] [|z c]; cbn [String.compare];
    try congruence.
  destruct (Ascii.compare x y) eqn:Exy; [|intros _|congruence].
  - apply Ascii.compare_eq_iff in Exy. subst y.
    destruct (Ascii.compare x z); [apply IH|congruence|congruence].
  - destruct (Ascii.compare y z) eqn:Eyz; [|intros _|congruence].
    + apply Ascii.compare_eq_iff in Eyz. subst z. rewrite Exy. congruence.
    + rewrite (ascii_compare_lt_le x y z Exy) by congruence. congruence.
Qed.

Lemma string_compare_total (a b : string) :
  String.compare a b = Gt -> String.compare b a <> Gt.
Proof.
  rewrite (String.compare_antisym a b). destruct (String.compare b a); cbn; congruence.
Qed.



(** ** Switching distributors *)

Lemma resetFilters_run (st : State) :
  fst (resetFilters st)
  = set_pricingData ∅
      (set_currentProducts []
         (set_selectedProducts []
            (set_paginationView None
               (set_filterParams
                  (<["subcategory" := ""]> (<["category" := ""]> (filterParams st)))
                  (set_skuKeyword ""
                     (set_skuType ""
                        (set_subcategory ""
                           (set_category ""
                              (set_totalPages 1
                                 (set_totalRecords 0
                                    (set_currentPage 1
                                       (set_manufacturer "" st)))))))))))).
Proof. destruct st. reflexivity. Qed.

(** X16. Choosing a distributor tab never empties or alters the queue,
    and never makes a distributor that is marked disabled the active
    one: if the active distributor was not disabled before, it is not
    afterwards, whatever key the tab passes. *)
Theorem selectDistributor_keeps_queue (distributor : string) (st : State) :
  active_enabled st ->
  let st' := fst (fst (selectDistributor distributor st)) in
  queuedProducts st' = queuedProducts st /\ active_enabled st'.
Proof.
  intros Hen. cbv zeta. unfold selectDistributor.
  destruct (DISTRIBUTORS distributor) as [d|] eqn:Ed.
  - destruct (disabled d) eqn:Edis; [now split|].
    destruct (resetFilters _) as [st1 out] eqn:Er.
    apply (f_equal fst) in Er. rewrite resetFilters_run in Er. cbn [fst] in *.
    subst st1. destruct st. split; [reflexivity|].
    unfold active_enabled. cbn. intros d' Ed'. congruence.
  - destruct (resetFilters _) as [st1 out] eqn:Er.
    apply (f_equal fst) in Er. rewrite resetFilters_run in Er. cbn [fst] in *.
    subst st1. destruct st. split; [reflexivity|].
    unfold active_enabled. cbn. intros d' Ed'. congruence.
Qed.

Lemma selectDistributor_keeps_queue_witness :
  let st := set_queuedProducts [part_A; part_B] acme_state in
  queuedProducts (fst (fst (selectDistributor "arrow" st))) = [part_A; part_B] /\
  active_enabled (fst (fst (selectDistributor "arrow" st))).
Proof.
  cbv zeta.
  apply (selectDistributor_keeps_queue "arrow"
           (set_queuedProducts [part_A; part_B] acme_state)).
  intros d Hd. vm_compute in Hd. injection Hd as <-. reflexivity.
Defined.

Lemma loadProducts_refused (page : Z) (st : State) :
  manufacturer st = EmptyString ->
  loadProducts page st
  = (false, st, [ShowStatus MsgSelectManufacturerFirst error]).
Proof. intros H. rewrite loadProducts_run, H. reflexivity. Qed.

Lemma resetFilters_manufacturer (st : State) :
  manufacturer (fst (resetFilters st)) = EmptyString.
Proof. rewrite resetFilters_run. destruct st. reflexivity. Qed.

(** X17. After the filters were reset, by hand or by a switch of
    distributor that was not refused, a request for a page of products
    is refused: nothing is sent to the proxy and the state stays as the
    reset left it, whatever page is asked for. *)
Theorem no_page_after_reset (distributor : string) (st : State) (page : Z) :
  (forall d, DISTRIBUTORS distributor = Some d -> disabled d = false) ->
  let switched := fst (fst (selectDistributor distributor st)) in
  loadProducts page (fst (resetFilters st))
  = (false, fst (resetFilters st), [ShowStatus MsgSelectManufacturerFirst error]) /\
  loadProducts page switched
  = (false, switched, [ShowStatus MsgSelectManufacturerFirst error]).
Proof.
  intros Hen. cbv zeta. split; apply loadProducts_refused.
  - apply resetFilters_manufacturer.
  - unfold selectDistributor.
    destruct (DISTRIBUTORS distributor) as [d|] eqn:Ed.
    + rewrite (Hen d eq_refl).
      pose proof (resetFilters_manufacturer (set_currentDistributor distributor st))
        as Hm.
      destruct (resetFilters _) as [st1 out]. exact Hm.
    + pose proof (resetFilters_manufacturer (set_currentDistributor distributor st))
        as Hm.
      destruct (resetFilters _) as [st1 out]. exact Hm.
Qed.

Lemma no_page_after_reset_witness :
  loadProducts 3 (fst (fst (selectDistributor "ingram" acme_state)))
  = (false, fst (fst (selectDistributor "ingram" acme_state)),
     [ShowStatus MsgSelectManufacturerFirst error]).
Proof.
  apply (proj2 (no_page_after_reset "ingram" acme_state 3
    (fun d Hd => match Hd in _ = o
                 return match o with Some d' => disabled d' = false | None => True end
                 with eq_refl => eq_refl end))).
Defined.

(** ** Product details *)

(** X18. The SKU type shown in the details is never empty, and
    formatting it again changes nothing. *)
Theorem formatSKUType_idempotent (type : option string) :
  formatSKUType type <> EmptyString /\
  formatSKUType (Some (formatSKUType type)) = formatSKUType type.
Proof.
  destruct type as [t|]; [|split; [discriminate|reflexivity]].
  unfold formatSKUType at 1 3 4.
  repeat match goal with
         | |- context [String.eqb t ?s] =>
             destruct (String.eqb t s) eqn:?;
             cbn [orb]; [split; [discriminate|reflexivity]|]
         end.
  destruct t as [|c r]; [split; [discriminate|reflexivity]|].
  cbn [or_str]. split; [discriminate|].
  unfold formatSKUType.
  repeat match goal with
         | H : String.eqb _ _ = false |- _ => rewrite H; clear H
         end.
  reflexivity.
Qed.

(** ** Paging and the queue *)

(** X19. Loading a page never touches the selection or the queue,
    whatever page is asked for and however the request ends: products
    ticked on an earlier page stay selected, and queued products stay
    queued. *)
Theorem page_load_keeps_selection (st : State) (page : Z) (r : PageResponse) :
  (let st' := exec (loadProducts page) st in
   selectedProducts st' = selectedProducts st /\
   queuedProducts st' = queuedProducts st) /\
  (let st' := exec (loadProducts_settle r) st in
   selectedProducts st' = selectedProducts st /\
   queuedProducts st' = queuedProducts st).
Proof.
  split; cbv zeta; unfold exec.
  - rewrite loadProducts_run.
    destruct (nonempty (manufacturer st)); cbn [fst snd]; now destruct st.
  - destruct r as [[|p l] pagination|].
    + now destruct st.
    + rewrite loadProducts_settle_ok by discriminate. cbn [fst snd].
      match goal with
      | |- context [exec (renderPagination pagination) ?s] =>
          destruct (renderPagination_frame pagination s) as (_ & _ & -> & ->)
      end.
      now destruct st.
    + now destruct st.
Qed.

Lemma freshOf_empty_queue (l : list Product.t) : freshOf [] l = l.
Proof.
  unfold freshOf. induction l as [|p l IH]; [reflexivity|].
  cbn [List.filter alreadyQueued existsb negb]. now f_equal.
Qed.

(** X20. After the queue was cleared, committing a selection queues
    every selected product, in the order of the selection: nothing is
    left out as already queued, also not what was in the queue before. *)
Theorem clear_then_commit (st : State) :
  selection_keyed (selectedProducts st) ->
  queuedProducts (exec addSelectedToQueue (fst (clearQueue st)))
  = map (enriched st) (Map_values (selectedProducts st)).
Proof.
  intros Hk. unfold clearQueue. cbn [fst].
  rewrite addSelectedToQueue_queue by (now destruct st).
  assert (queuedProducts (set_queuedProducts [] st) = []) as -> by now destruct st.
  assert (selectedProducts (set_queuedProducts [] st) = selectedProducts st) as ->
    by now destruct st.
  rewrite freshOf_empty_queue. cbn [app].
  apply map_ext. intros p. now destruct st.
Qed.

Lemma clear_then_commit_witness :
  let st := set_selectedProducts [("SKU-A", part_A)]
              (set_queuedProducts [part_A; part_B] initial_state) in
  queuedProducts (exec addSelectedToQueue (fst (clearQueue st)))
  = map (enriched st) (Map_values (selectedProducts st)).
Proof.
  cbv zeta.
  apply (clear_then_commit
           (set_selectedProducts [("SKU-A", part_A)]
              (set_queuedProducts [part_A; part_B] initial_state))).
  split.
  - constructor; [intros []|constructor].
  - constructor; [reflexivity|constructor].
Defined.
